(** * The Beam DAG runner of TFX: graph construction and completion signals

    A shallow embedding of [tfx/orchestration/beam/beam_dag_runner.py]
    ([_ComponentAsDoFn] and [BeamDagRunner.run]) together with the graph
    builder behind [pipeline.Pipeline], and the properties its design
    document states about them.

    Python values are modelled as follows.
    - [str] is [string]; the characters that matter to the code (the class
      [[0-9a-zA-Z-]], [str.lower] on letters, [str.startswith]) are ASCII,
      a byte above 127 is a character outside the class that [lower] leaves
      alone.
    - [int] is [Z].
    - Objects that the code shares and mutates (the [dict] of additional
      pipeline arguments and the [list] of Beam arguments it holds) live in
      a heap indexed by locations; components and nodes are object
      references.
    - A raised exception is the [Raise] outcome of a computation.
    - [BeamDagRunner.run] builds the graph inside a [with beam.Pipeline]
      block and the engine runs the graph when the block is left. [run]
      is the method up to that point, [executes] the engine, a relation
      since it is free in the order of the transforms that are ready,
      and [completes] the method to its end. *)

From Stdlib Require Import ZArith Ascii String List Lia Bool DecimalString.
From Stdlib Require DecimalPos DecimalZ.
From stdpp Require Import base option list gmap strings.

Local Open Scope string_scope.
Local Open Scope list_scope.

(** ** Python strings *)

Module PyStr.

Definition is_digit (c : ascii) : bool :=
  let n := N_of_ascii c in (48 <=? n)%N && (n <=? 57)%N.

Definition is_upper (c : ascii) : bool :=
  let n := N_of_ascii c in (65 <=? n)%N && (n <=? 90)%N.

Definition is_lower (c : ascii) : bool :=
  let n := N_of_ascii c in (97 <=? n)%N && (n <=? 122)%N.

Definition is_dash (c : ascii) : bool := Ascii.eqb c "-".

(** [str.lower] on one character. *)
Definition lower_char (c : ascii) : ascii :=
  if is_upper c then ascii_of_N (N_of_ascii c + 32) else c.

(** [s.lower()] *)
Fixpoint lower (s : string) : string :=
  match s with
  | EmptyString => EmptyString
  | String c s' => String (lower_char c) (lower s')
  end.

(** The complement of the character class of the pattern
    [r'[^0-9a-zA-Z-]+']: [in_class c] holds for the characters the pattern
    does NOT match. *)
Definition in_class (c : ascii) : bool :=
  is_digit c || is_lower c || is_upper c || is_dash c.

(** [re.sub(r'[^0-9a-zA-Z-]+', '-', s)]: scanning from the left, every
    maximal run of characters outside the class is replaced by one ['-'].
    [in_run] tells that the previous character belonged to a run whose
    replacement has been emitted already. *)
Fixpoint re_sub_from (in_run : bool) (s : string) : string :=
  match s with
  | EmptyString => EmptyString
  | String c s' =>
      if in_class c then String c (re_sub_from false s')
      else if in_run then re_sub_from true s'
      else String "-" (re_sub_from true s')
  end.

Definition re_sub (s : string) : string := re_sub_from false s.

(** A job-name character: a digit, a lower-case letter or a dash. *)
Definition job_name_char (c : ascii) : bool := is_digit c || is_lower c || is_dash c.

(** ['{}'.format(n)] for an [int]. *)
Definition format_int (n : Z) : string := NilZero.string_of_int (Z.to_int n).

(** [s.startswith(p)] *)
Fixpoint startswith (p s : string) : bool :=
  match p, s with
  | EmptyString, _ => true
  | String a p', String b s' => Ascii.eqb a b && startswith p' s'
  | String _ _, EmptyString => false
  end.

(** The characters of a string, for stating properties of all of them. *)
Fixpoint chars (s : string) : list ascii :=
  match s with
  | EmptyString => []
  | String c s' => c :: chars s'
  end.

End PyStr.

(** ** Job names (beam_dag_runner.py, lines 51-59 and 119-126) *)

Module JobName.
Import PyStr.

(** ['{pipeline_name}-{component}-{ts}'.format(...)] *)
Definition component_template (pipeline_name component_id : string) (ts : Z) : string :=
  pipeline_name +:+ "-" +:+ component_id +:+ "-" +:+ format_int ts.

(** [_job_name] of [_ComponentAsDoFn.__init__]. *)
Definition component_job_name (pipeline_name component_id : string) (ts : Z) : string :=
  re_sub (lower (component_template pipeline_name component_id ts)).

(** ['{pipeline_name}-{ts}'.format(...)] *)
Definition orchestrator_template (pipeline_name : string) (ts : Z) : string :=
  pipeline_name +:+ "-" +:+ format_int ts.

(** [orchestrator_job_name] of [BeamDagRunner.run]. *)
Definition orchestrator_job_name (pipeline_name : string) (ts : Z) : string :=
  re_sub (lower (orchestrator_template pipeline_name ts)).

(** ['--job_name={}'.format(name)] *)
Definition job_name_flag (name : string) : string := "--job_name=" +:+ name.

End JobName.

(** ** [datetime.datetime] and [isoformat] *)

Module DateTime.
Import PyStr.

(** A naive [datetime.datetime] object, as [datetime.datetime.now()]
    returns it. *)
Record datetime := {
  year : N; month : N; day : N;
  hour : N; minute : N; second : N; microsecond : N
}.

Definition is_leap (y : N) : bool :=
  ((y mod 4 =? 0) && (negb (y mod 100 =? 0) || (y mod 400 =? 0)))%N.

Definition days_in_month (y m : N) : N :=
  match m with
  | 2 => if is_leap y then 29 else 28
  | 4 | 6 | 9 | 11 => 30
  | _ => 31
  end%N.

(** The ranges the [datetime] class enforces on its fields. *)
Definition valid (d : datetime) : bool :=
  ((1 <=? year d) && (year d <=? 9999) &&
   (1 <=? month d) && (month d <=? 12) &&
   (1 <=? day d) && (day d <=? days_in_month (year d) (month d)) &&
   (hour d <? 24) && (minute d <? 60) && (second d <? 60) &&
   (microsecond d <? 1000000))%N.

Definition digit_char (n : N) : ascii := ascii_of_N (48 + n mod 10).

(** ['%0<width>d' % n] for [n < 10 ^ width], the only values the fields of
    a [datetime] take at the widths [isoformat] prints them with. *)
Fixpoint zero_padded (width : nat) (n : N) : string :=
  match width with
  | 0 => EmptyString
  | S w => String (digit_char (n / 10 ^ N.of_nat w)) (zero_padded w n)
  end.

(** [d.isoformat()]: [YYYY-MM-DDTHH:MM:SS], followed by [.ffffff] when the
    microsecond field is not zero. *)
Definition isoformat (d : datetime) : string :=
  zero_padded 4 (year d) +:+ "-" +:+ zero_padded 2 (month d) +:+ "-" +:+
  zero_padded 2 (day d) +:+ "T" +:+ zero_padded 2 (hour d) +:+ ":" +:+
  zero_padded 2 (minute d) +:+ ":" +:+ zero_padded 2 (second d) +:+
  (if (microsecond d =? 0)%N then "" else "." +:+ zero_padded 6 (microsecond d)).

(** *** A reader of ISO-8601 timestamps

    [parse_iso8601] accepts exactly the extended format
    [YYYY-MM-DDTHH:MM:SS] with an optional six-digit fraction of a second,
    and only calendar dates and times of day that exist. *)

Definition digit_value (c : ascii) : option N :=
  if is_digit c then Some (N_of_ascii c - 48)%N else None.

(** Reads exactly [width] digits. *)
Fixpoint read_digits (width : nat) (acc : N) (s : string) : option (N * string) :=
  match width with
  | 0 => Some (acc, s)
  | S w =>
      match s with
      | EmptyString => None
      | String c s' =>
          match digit_value c with
          | Some v => read_digits w (10 * acc + v)%N s'
          | None => None
          end
      end
  end.

Definition read_char (c : ascii) (s : string) : option string :=
  match s with
  | String c' s' => if Ascii.eqb c c' then Some s' else None
  | EmptyString => None
  end.

Definition read_fraction (s : string) : option N :=
  match s with
  | EmptyString => Some 0%N
  | _ =>
      s ← read_char "." s;
      '(us, s) ← read_digits 6 0 s;
      match s with
      | EmptyString => if (us =? 0)%N then None else Some us
      | _ => None
      end
  end.

Definition parse_iso8601 (s : string) : option datetime :=
  '(y, s) ← read_digits 4 0 s; s ← read_char "-" s;
  '(mo, s) ← read_digits 2 0 s; s ← read_char "-" s;
  '(d, s) ← read_digits 2 0 s; s ← read_char "T" s;
  '(h, s) ← read_digits 2 0 s; s ← read_char ":" s;
  '(mi, s) ← read_digits 2 0 s; s ← read_char ":" s;
  '(se, s) ← read_digits 2 0 s;
  us ← read_fraction s;
  let dt := {| year := y; month := mo; day := d; hour := h; minute := mi;
               second := se; microsecond := us |} in
  if valid dt then Some dt else None.

Definition is_iso8601 (s : string) : bool :=
  match parse_iso8601 s with Some _ => true | None => false end.

End DateTime.

(** ** Python objects, exceptions and effects *)

Module Py.
Import DateTime.

Inductive exn :=
  | AssertionError (msg : string)
  | TypeError
  | KeyError (key : string)
  | RuntimeError (msg : string).

Inductive outcome (A : Type) :=
  | Return (a : A)
  | Raise (e : exn).
Arguments Return {A} a.
Arguments Raise {A} e.

(** Heap locations, and the two kinds of mutable object the runner shares:
    a [list] of strings and a [dict] from strings to objects. *)
Definition loc := nat.

Inductive obj :=
  | PyList (items : list string)
  | PyDict (entries : gmap string loc).

Inductive log_entry :=
  | LogDependsOn (component_id : string) (labels : list string)
  | LogScheduled (component_id : string)
  | LogRunning (component_id : string)
  | LogFinished (component_id : string).

(** What a call can read and change besides its arguments. *)
Record world := {
  heap : gmap loc obj;
  (** how many times [datetime.datetime.now()] has been called *)
  clock : nat;
  (** [tfx_pipeline.pipeline_info.run_id] of the pipeline at hand *)
  run_id : option string;
  (** the lines of [tf.logging.info] *)
  log : list log_entry;
  (** the components [launch()] was called for, oldest first *)
  launched : list nat
}.

Definition set_heap (h : gmap loc obj) (w : world) : world :=
  {| heap := h; clock := clock w; run_id := run_id w; log := log w;
     launched := launched w |}.
Definition set_clock (n : nat) (w : world) : world :=
  {| heap := heap w; clock := n; run_id := run_id w; log := log w;
     launched := launched w |}.
Definition set_run_id (r : option string) (w : world) : world :=
  {| heap := heap w; clock := clock w; run_id := r; log := log w;
     launched := launched w |}.
Definition set_log (l : list log_entry) (w : world) : world :=
  {| heap := heap w; clock := clock w; run_id := run_id w; log := l;
     launched := launched w |}.
Definition set_launched (l : list nat) (w : world) : world :=
  {| heap := heap w; clock := clock w; run_id := run_id w; log := log w;
     launched := l |}.

(** A computation: it ends by returning or by raising, and either way
    leaves a world behind. *)
Definition M (A : Type) : Type := world → outcome A * world.

#[global] Instance M_ret : MRet M := λ A a w, (Return a, w).
#[global] Instance M_bind : MBind M := λ A B f m w,
  match m w with
  | (Return a, w') => f a w'
  | (Raise e, w') => (Raise e, w')
  end.

Definition raise {A} (e : exn) : M A := λ w, (Raise e, w).
Definition get_world : M world := λ w, (Return w, w).
Definition modify (f : world → world) : M unit := λ w, (Return (), f w).

(** A loop body run for each element of a list, in order. *)
Fixpoint for_each {A} (body : A → M unit) (l : list A) : M unit :=
  match l with
  | [] => mret ()
  | x :: l' => body x ;; for_each body l'
  end.

(** *** The heap *)

Definition alloc (o : obj) : M loc := λ w,
  let l := fresh (dom (heap w)) in (Return l, set_heap (<[l := o]> (heap w)) w).

Definition read_list (l : loc) : M (list string) := λ w,
  match heap w !! l with
  | Some (PyList items) => (Return items, w)
  | _ => (Raise TypeError, w)
  end.

Definition read_dict (l : loc) : M (gmap string loc) := λ w,
  match heap w !! l with
  | Some (PyDict entries) => (Return entries, w)
  | _ => (Raise TypeError, w)
  end.

Definition store (l : loc) (o : obj) : M unit :=
  modify (λ w, set_heap (<[l := o]> (heap w)) w).

(** [d.copy()]: a new dict with the same entries, the values shared. *)
Definition dict_copy (d : loc) : M loc :=
  entries ← read_dict d; alloc (PyDict entries).

(** [d.setdefault(key, default)] *)
Definition dict_setdefault (d : loc) (key : string) (default : loc) : M loc :=
  entries ← read_dict d;
  match entries !! key with
  | Some v => mret v
  | None => store d (PyDict (<[key := default]> entries)) ;; mret default
  end.

(** [d[key] = value] *)
Definition dict_setitem (d : loc) (key : string) (value : loc) : M unit :=
  entries ← read_dict d; store d (PyDict (<[key := value]> entries)).

(** [d[key]] *)
Definition dict_getitem (d : loc) (key : string) : M loc :=
  entries ← read_dict d;
  match entries !! key with
  | Some v => mret v
  | None => raise (KeyError key)
  end.

(** [l.append(x)] *)
Definition list_append (l : loc) (x : string) : M unit :=
  items ← read_list l; store l (PyList (items ++ [x])).

Definition info (e : log_entry) : M unit :=
  modify (λ w, set_log (log w ++ [e]) w).

(** The list a dict holds under [key], when it holds one. *)
Definition list_at (w : world) (d : loc) (key : string) : option (list string) :=
  match heap w !! d with
  | Some (PyDict entries) =>
      match entries !! key with
      | Some l =>
          match heap w !! l with
          | Some (PyList items) => Some items
          | _ => None
          end
      | None => None
      end
  | _ => None
  end.

(** [wp m Q E w]: run in [w], [m] returns a value and a world that satisfy
    [Q], or raises an exception and leaves a world that satisfy [E]. *)
Definition wp {A} (m : M A) (Q : A → world → Prop) (E : exn → world → Prop)
    (w : world) : Prop :=
  match m w with
  | (Return a, w') => Q a w'
  | (Raise e, w') => E e w'
  end.

(** Every object of [w] is in [w'] as it was, and nothing but the heap and
    the clock differs. *)
Definition untouched (w w' : world) : Prop :=
  (∀ l, l ∈ dom (heap w) → heap w' !! l = heap w !! l) ∧
  run_id w' = run_id w ∧ log w' = log w ∧ launched w' = launched w.

(** The heap keeps its objects; the run id and the launches are the same. *)
Definition kept (w w' : world) : Prop :=
  (∀ l o, heap w !! l = Some o → heap w' !! l = Some o) ∧
  run_id w' = run_id w ∧ launched w' = launched w.

End Py.

(** ** The runner (beam_dag_runner.py) *)

Module BeamDagRunner.
Import PyStr JobName DateTime Py.

(** A component is an object reference; [signal_map] and [upstream_nodes]
    compare components by reference. *)
Definition component := nat.

(** [pipeline.Pipeline], as far as the runner reads it. [pipeline_name] is
    [pipeline_info.pipeline_name]; [pipeline_info.run_id], which [run]
    assigns, is the [run_id] of the world. *)
Record pipeline := {
  pipeline_name : string;
  enable_cache : bool;
  metadata_connection_config : string;
  additional_pipeline_args : loc;
  components : list component
}.

(** What [component_launcher.ComponentLauncher] is constructed from. *)
Record launcher := {
  launcher_component : component;
  launcher_pipeline_name : string;
  launcher_enable_cache : bool;
  launcher_metadata_connection_config : string;
  launcher_additional_pipeline_args : loc
}.

(** The fields of a [_ComponentAsDoFn]. *)
Record dofn := {
  _additional_pipeline_args : loc;
  _component_launcher : launcher;
  _component_id : string
}.

(** A [PCollection], named by the full label of the transform that
    produces it. *)
Definition pcollection := string.

Inductive transform :=
  | Create (label : string)
  | ParDo (label : string) (fn : dofn) (main_input : pcollection)
          (side_inputs : list pcollection).

Definition full_label (t : transform) : string :=
  match t with
  | Create label => label
  | ParDo label _ _ _ => label
  end.

(** The graph handed to the engine when the [with beam.Pipeline(...)] block
    ends. *)
Record beam_pipeline := {
  argv : list string;
  applied : list transform
}.

(** What [run] leaves behind: the runner's [_beam_orchestrator_args], a
    list that [run] appends to in place, and the graph submitted to the
    engine, if any. *)
Record run_result := {
  runner_args : list string;
  submitted : option beam_pipeline
}.

(** The local variables of the scheduling loop of [run]. *)
Record loop_state := {
  signal_map : gmap component pcollection;
  transforms : list transform
}.

Definition job_name_prefix : string := "--job_name".
Definition export_variable : string := "TFX_JSON_EXPORT_PIPELINE_ARGS_PATH".
Definition beam_pipeline_args : string := "beam_pipeline_args".

(** The additional pipeline arguments of a pipeline are well formed in a
    world: a dict, whose entry for the Beam arguments, when it has one, is
    a list. [user_args] is that list, or the empty one. *)
Definition args_ok (w : world) (d : loc) (user_args : list string) : Prop :=
  ∃ entries, heap w !! d = Some (PyDict entries) ∧
    match entries !! beam_pipeline_args with
    | Some l => heap w !! l = Some (PyList user_args)
    | None => user_args = []
    end.

(** What the assertion of the loop raises. *)
Definition not_topological : exn :=
  AssertionError "Components is not in topological order".

(** The loop state [run] starts from: no signal yet, and the root. *)
Definition loop_start : loop_state :=
  {| signal_map := ∅; transforms := [Create "CreateRoot"] |}.

(** [BeamDagRunner.__init__] (lines 95-104): the runner's
    [_beam_orchestrator_args] is [beam_orchestrator_args or []]. *)
Definition BeamDagRunner_init (beam_orchestrator_args : option (list string))
    : list string :=
  match beam_orchestrator_args with
  | Some (arg :: args) => arg :: args
  | Some [] | None => []
  end.

(** The function of a [ParDo], and the dict of additional pipeline
    arguments it holds. *)
Definition unit_dofn (t : transform) : option dofn :=
  match t with
  | ParDo _ fn _ _ => Some fn
  | Create _ => None
  end.

Definition unit_args (t : transform) : option loc :=
  _additional_pipeline_args <$> unit_dofn t.

(** The arguments the comprehension of lines 60-63 keeps. *)
Definition strip_job_names (args : list string) : list string :=
  filter (λ arg, ¬ startswith job_name_prefix arg) args.

Section Runner.

(** The attributes of component objects. *)
Variable component_id : component → string.
Variable upstream_nodes : component → list component.

(** The clock: what the [n]-th call of [datetime.datetime.now()] returns,
    and [int(datetime.datetime.timestamp(d))]. *)
Variable now : nat → datetime.
Variable timestamp : datetime → Z.

(** The launcher, an external collaborator. *)
Variable launch : launcher → M unit.

Definition datetime_now : M datetime := λ w,
  (Return (now (clock w)), set_clock (S (clock w)) w).

(** [self._component_launcher.launch()] *)
Definition call_launch (l : launcher) : M unit := λ w,
  let '(r, w') := launch l w in
  (r, set_launched (launched w ++ [launcher_component l]) w').

(** *** [_ComponentAsDoFn] *)

(** [_ComponentAsDoFn.__init__] (lines 49-73) *)
Definition ComponentAsDoFn_init (c : component) (tfx_pipeline : pipeline) : M dofn :=
  let driver_args := enable_cache tfx_pipeline in
  args ← dict_copy (additional_pipeline_args tfx_pipeline);
  d ← datetime_now;
  let _job_name :=
    component_job_name (pipeline_name tfx_pipeline) (component_id c) (timestamp d) in
  default ← alloc (PyList []);
  old ← dict_setdefault args beam_pipeline_args default;
  items ← read_list old;
  kept ← alloc (PyList (filter (λ arg, ¬ startswith job_name_prefix arg) items));
  dict_setitem args beam_pipeline_args kept;;
  l ← dict_getitem args beam_pipeline_args;
  list_append l (job_name_flag _job_name);;
  mret {| _additional_pipeline_args := args;
          _component_launcher :=
            {| launcher_component := c;
               launcher_pipeline_name := pipeline_name tfx_pipeline;
               launcher_enable_cache := driver_args;
               launcher_metadata_connection_config :=
                 metadata_connection_config tfx_pipeline;
               launcher_additional_pipeline_args := args |};
          _component_id := component_id c |}.

(** [_ComponentAsDoFn._run_component] (lines 86-89) *)
Definition _run_component (self : dofn) : M unit :=
  info (LogRunning (_component_id self));;
  call_launch (_component_launcher self);;
  info (LogFinished (_component_id self)).

(** [assert not list(signal), 'Signal PCollection should be empty.'] *)
Definition assert_empty {A} (signal : list A) : M unit :=
  match signal with
  | [] => mret ()
  | _ :: _ => raise (AssertionError "Signal PCollection should be empty.")
  end.

(** [_ComponentAsDoFn.process] (lines 75-84) *)
Definition process {A} (self : dofn) (element : A) (signals : list (list A)) : M unit :=
  for_each assert_empty signals;;
  _run_component self.

(** *** [BeamDagRunner.run] *)

(** [pipeline | label >> transform]: Beam refuses a label the pipeline has
    already; the result is the transform's output. *)
Definition apply (p : list transform) (t : transform) : M (list transform * pcollection) :=
  if decide (full_label t ∈ full_label <$> p)
  then raise (RuntimeError "A transform with this label already exists in the pipeline.")
  else mret (p ++ [t], full_label t).

(** Lines 146-151: the signals of the upstream components, each of which
    must be in [signal_map] already. *)
Fixpoint wait_for (signal_map : gmap component pcollection)
    (upstream : list component) (signals_to_wait : list pcollection)
    : M (list pcollection) :=
  match upstream with
  | [] => mret signals_to_wait
  | upstream_node :: rest =>
      match signal_map !! upstream_node with
      | None => raise (AssertionError "Components is not in topological order")
      | Some s => wait_for signal_map rest (signals_to_wait ++ [s])
      end
  end.

Definition run_label (id : string) : string := "Run[" +:+ id +:+ "]".

(** The body of the loop over [tfx_pipeline.components] (lines 143-162). *)
Definition schedule (tfx_pipeline : pipeline) (root : pcollection)
    (st : loop_state) (c : component) : M loop_state :=
  let id := component_id c in
  signals_to_wait ← wait_for (signal_map st) (upstream_nodes c) [];
  info (LogDependsOn id signals_to_wait);;
  fn ← ComponentAsDoFn_init c tfx_pipeline;
  '(p, signal) ← apply (transforms st) (ParDo (run_label id) fn root signals_to_wait);
  info (LogScheduled id);;
  mret {| signal_map := <[c := signal]> (signal_map st); transforms := p |}.

Fixpoint schedule_all (tfx_pipeline : pipeline) (root : pcollection)
    (cs : list component) (st : loop_state) : M loop_state :=
  match cs with
  | [] => mret st
  | c :: cs' =>
      st' ← schedule tfx_pipeline root st c;
      schedule_all tfx_pipeline root cs' st'
  end.

(** Lines 116-128: the orchestrator's own job name, unless one is given. *)
Definition with_job_name (beam_orchestrator_args : list string)
    (tfx_pipeline : pipeline) : M (list string) :=
  if existsb (startswith "--job_name=") beam_orchestrator_args
  then mret beam_orchestrator_args
  else
    d ← datetime_now;
    mret (beam_orchestrator_args ++
          [job_name_flag (orchestrator_job_name (pipeline_name tfx_pipeline) (timestamp d))]).

(** Lines 133-162, up to the end of the [with] block: the run id, and the
    graph built inside the block. Leaving the block hands the graph to
    the engine, which runs it and waits; that is [executes] below. *)
Definition deploy (args : list string) (tfx_pipeline : pipeline) : M run_result :=
  d ← datetime_now;
  modify (set_run_id (Some (isoformat d)));;
  '(p, root) ← apply [] (Create "CreateRoot");
  st ← schedule_all tfx_pipeline root (components tfx_pipeline)
         {| signal_map := ∅; transforms := p |};
  mret {| runner_args := args;
          submitted := Some {| argv := args; applied := transforms st |} |}.

(** [BeamDagRunner.run] (lines 106-162), called on a runner whose
    [_beam_orchestrator_args] is [beam_orchestrator_args], with [environ]
    for [os.environ], up to the point where the [with] block is left: no
    execution unit has run yet. [completes] below is [run] to its end. *)
Definition run (beam_orchestrator_args : list string)
    (environ : gmap string string) (tfx_pipeline : pipeline) : M run_result :=
  args ← with_job_name beam_orchestrator_args tfx_pipeline;
  if decide (export_variable ∈ dom environ)
  then mret {| runner_args := args; submitted := None |}
  else deploy args tfx_pipeline.

(** *** The engine *)

(** The engine keeps the elements of the [PCollection]s that are
    complete, by the full label of the transform that produces them; all
    elements are [None]. The inputs of a transform, when they are
    complete, are the elements of its main input and of each of its side
    inputs. *)
Definition inputs_of (done : gmap pcollection (list ())) (t : transform)
    : option (list () * list (list ())) :=
  match t with
  | Create _ => Some ([], [])
  | ParDo _ _ main_input side_inputs =>
      main ← done !! main_input;
      sides ← mapM (λ s, done !! s) side_inputs;
      Some (main, sides)
  end.

(** A transform at work. [beam.Create([None])] yields its one element. A
    [ParDo] calls [process] for each element of its main input, with its
    side inputs [AsIter], and yields what the calls return: nothing, for
    [process] returns [None]. *)
Definition fire (t : transform) (main : list ()) (sides : list (list ()))
    : M (list ()) :=
  match t with
  | Create _ => mret [()]
  | ParDo _ fn _ _ =>
      for_each (λ element, process fn element sides) main;;
      mret []
  end.

(** The engine running a graph, as [beam.Pipeline.__exit__] has it do when
    the block ends normally. It takes one transform at a time, any whose
    inputs are complete and that has not run; the order is not fixed
    beyond that. It stops when every transform has run, or at the first
    that raises, whose exception leaves [run]; the engine adds to the
    message where it was raised, which is left out here. *)
Inductive executes (p : list transform)
    : gmap pcollection (list ()) → world → outcome () → world → Prop :=
  | executes_done done w :
      (∀ t, t ∈ p → full_label t ∈ dom done) →
      executes p done w (Return ()) w
  | executes_fire done w t main sides out w1 o w' :
      t ∈ p → full_label t ∉ dom done →
      inputs_of done t = Some (main, sides) →
      fire t main sides w = (Return out, w1) →
      executes p (<[full_label t := out]> done) w1 o w' →
      executes p done w o w'
  | executes_fail done w t main sides e w1 :
      t ∈ p → full_label t ∉ dom done →
      inputs_of done t = Some (main, sides) →
      fire t main sides w = (Raise e, w1) →
      executes p done w (Raise e) w1.

(** The engine taking the transforms in the order they were applied. The
    inputs of a transform are the outputs of transforms applied before
    it, so they are complete when its turn comes. *)
Fixpoint execute_in_order (ts : list transform)
    (done : gmap pcollection (list ())) : M (gmap pcollection (list ())) :=
  match ts with
  | [] => mret done
  | t :: ts' =>
      match inputs_of done t with
      | Some (main, sides) =>
          out ← fire t main sides;
          execute_in_order ts' (<[full_label t := out]> done)
      | None => raise (RuntimeError "The input of a transform is not complete.")
      end
  end.

(** [BeamDagRunner.run] to its end: [o] is how it ends and [w'] the world
    it leaves. When [run] has built a graph, the engine runs it; when
    building it raised, or nothing is to be deployed, that is the end. *)
Definition completes (beam_orchestrator_args : list string)
    (environ : gmap string string) (tfx_pipeline : pipeline)
    (w : world) (o : outcome run_result) (w' : world) : Prop :=
  match run beam_orchestrator_args environ tfx_pipeline w with
  | (Raise e, w1) => o = Raise e ∧ w' = w1
  | (Return r, w1) =>
      match submitted r with
      | None => o = Return r ∧ w' = w1
      | Some p =>
          ∃ o1, executes (applied p) ∅ w1 o1 w' ∧
                o = match o1 with
                    | Return _ => Return r
                    | Raise e => Raise e
                    end
      end
  end.

(** *** What the properties of the runner speak of *)

(** What the constructor returns when the arguments are well formed. *)
Definition constructed (c : component) (tp : pipeline) (w : world)
    (fn : dofn) (w' : world) : Prop :=
  _component_id fn = component_id c ∧
  _component_launcher fn =
    {| launcher_component := c;
       launcher_pipeline_name := pipeline_name tp;
       launcher_enable_cache := enable_cache tp;
       launcher_metadata_connection_config := metadata_connection_config tp;
       launcher_additional_pipeline_args := _additional_pipeline_args fn |} ∧
  clock w' = S (clock w) ∧
  heap w !! _additional_pipeline_args fn = None ∧
  ∀ user_args, args_ok w (additional_pipeline_args tp) user_args →
    list_at w' (_additional_pipeline_args fn) beam_pipeline_args
    = Some (filter (λ arg, ¬ startswith job_name_prefix arg) user_args ++
            [job_name_flag (component_job_name (pipeline_name tp) (component_id c)
                              (timestamp (now (clock w))))]).

(** The signal of a component: the output of its [Run[...]] transform. *)
Definition signal_of (c : component) : pcollection := run_label (component_id c).

(** The signal map holds the signals of the components in [done], and
    nothing else. *)
Definition signals_of (done : list component) (sm : gmap component pcollection) : Prop :=
  ∀ u, sm !! u = if decide (u ∈ done) then Some (signal_of u) else None.

(** Every component comes after its upstream nodes. *)
Definition topological (cs : list component) : Prop :=
  ∀ pre c post, cs = pre ++ c :: post → ∀ u, u ∈ upstream_nodes c → u ∈ pre.

(** The execution unit of [c]: a [ParDo] on the root, with the signals of
    the upstream nodes of [c] as side inputs. *)
Definition unit_of (root : pcollection) (c : component) (t : transform) : Prop :=
  ∃ fn, t = ParDo (run_label (component_id c)) fn root (signal_of <$> upstream_nodes c) ∧
        launcher_component (_component_launcher fn) = c.

(** The world the loop of [run] starts in: the clock has been read once
    more and the run id is assigned. *)
Definition started (w : world) : world :=
  set_run_id (Some (isoformat (now (clock w)))) (set_clock (S (clock w)) w).

(** The job name argument of the execution unit of [c], constructed when
    the clock has been read [tick] times. *)
Definition derived_flag (tp : pipeline) (c : component) (tick : nat) : string :=
  job_name_flag (component_job_name (pipeline_name tp) (component_id c)
                   (timestamp (now tick))).

(** The two lines a round of the loop logs for [c]. *)
Definition unit_log (c : component) : list log_entry :=
  [LogDependsOn (component_id c) (signal_of <$> upstream_nodes c);
   LogScheduled (component_id c)].

(** How many times the clock has been read when the loop of [run]
    starts: once for the run id, and once before for the job name of the
    orchestrator unless one was given. *)
Definition loop_tick (beam_orchestrator_args : list string) (w : world) : nat :=
  if existsb (startswith "--job_name=") beam_orchestrator_args
  then clock w + 1 else clock w + 2.

End Runner.

End BeamDagRunner.

(** ** The graph builder behind [pipeline.Pipeline]

    [tfx/orchestration/pipeline.py] is not among the sources at hand; only
    its tests are. The builder is written down from section 4.1 of the
    design document. *)

Module GraphBuilder.

(** A node is an object reference; the same reference passed twice is the
    same node. *)
Definition node_ref := nat.

(** Modelled from the spec: the data model of section 3, which
    [tfx/types] and [base_component] would give. A channel is a type tag
    and an optional producing node; a node is an identity and its
    mappings from names to input and output channels. The artifact
    descriptors of a channel are left out: only step 5 touches them. *)
Record Channel := {
  type_tag : string;
  producer : option node_ref
}.

Record Node := {
  identity : string;
  inputs : list (string * Channel);
  outputs : list (string * Channel)
}.

Inductive GraphError :=
  | DuplicateNodeIdentity (id : string)
  | CycleDetected (on_cycle : node_ref).

Section Build.

(** The node objects the references stand for. *)
Variable node : node_ref → Node.

(** Modelled from the spec: step 4 of the builder, missing with
    [pipeline.py]. Each reference is kept where it occurs first. *)
Fixpoint dedup (nodes : list node_ref) : list node_ref :=
  match nodes with
  | [] => []
  | n :: rest => n :: filter (λ m, m ≠ n) (dedup rest)
  end.

(** Modelled from the spec: step 1 of the builder, missing with
    [pipeline.py]: nodes are indexed by identity, and a repeated identity
    fails. *)
Fixpoint index_by_identity (nodes : list node_ref) (index : gmap string node_ref)
    : GraphError + gmap string node_ref :=
  match nodes with
  | [] => inr index
  | n :: rest =>
      match index !! identity (node n) with
      | Some _ => inl (DuplicateNodeIdentity (identity (node n)))
      | None => index_by_identity rest (<[identity (node n) := n]> index)
      end
  end.

(** Modelled from the spec: step 2 of the builder, missing with
    [pipeline.py]. The producers of the input channels of [n], and among
    them those that belong to the node set [among]: an input whose
    producer is absent from the set is an external input. *)
Definition producers (n : node_ref) : list node_ref :=
  omap (λ input, producer input.2) (inputs (node n)).

Definition upstream (among : list node_ref) (n : node_ref) : list node_ref :=
  filter (λ p, p ∈ among) (producers n).

(** The derived edge [p → n] of a node set. *)
Definition edge (among : list node_ref) (p n : node_ref) : Prop :=
  n ∈ among ∧ p ∈ upstream among n.

(** Modelled from the spec: the node that [CycleDetected] names, which
    step 3 leaves open beyond its lying on a cycle. From a node that was
    not extracted, follow first producers backwards for as many steps as
    there are nodes left. *)
Fixpoint walk_back (steps : nat) (among : list node_ref) (n : node_ref) : node_ref :=
  match steps with
  | 0 => n
  | S k =>
      match upstream among n with
      | p :: _ => walk_back k among p
      | [] => n
      end
  end.

(** One step backwards: the first upstream node. *)
Definition first_upstream (among : list node_ref) (n : node_ref) : node_ref :=
  match upstream among n with
  | p :: _ => p
  | [] => n
  end.

(** Modelled from the spec: step 3 of the builder, missing with
    [pipeline.py]: repeated extraction of the first node, in input order,
    that has no producer among the nodes not yet extracted. One round
    extracts one node, so [rounds] is the number of nodes, and no round is
    left only when no node is. *)
Fixpoint extract (rounds : nat) (remaining : list node_ref)
    : GraphError + list node_ref :=
  match remaining, rounds with
  | [], _ => inr []
  | _ :: _, 0 => inr []
  | first :: _, S rounds' =>
      match list_find (λ n, upstream remaining n = []) remaining with
      | Some (_, n) =>
          match extract rounds' (filter (λ m, m ≠ n) remaining) with
          | inr order => inr (n :: order)
          | inl e => inl e
          end
      | None => inl (CycleDetected (walk_back (length remaining) remaining first))
      end
  end.

(** Modelled from the spec: [build] of section 4.1, the construction of the
    component list of a [Pipeline], missing with [pipeline.py]. Step 4
    comes before steps 1 to 3. *)
Definition build (nodes : list node_ref) : GraphError + list node_ref :=
  let distinct := dedup nodes in
  match index_by_identity distinct ∅ with
  | inl e => inl e
  | inr _ => extract (length distinct) distinct
  end.

(** A dependency cycle of a node set: distinct nodes, each an upstream
    node of the next, and the last one of the first. *)
Fixpoint chain (among : list node_ref) (from : node_ref) (via : list node_ref)
    (to : node_ref) : Prop :=
  match via with
  | [] => edge among from to
  | n :: via' => edge among from n ∧ chain among n via' to
  end.

Definition cycle (among : list node_ref) (ns : list node_ref) : Prop :=
  match ns with
  | [] => False
  | n :: rest => NoDup ns ∧ chain among n rest n
  end.

End Build.

End GraphBuilder.

(** ** The pipelines of the tests *)

Module Examples.
Import PyStr JobName DateTime Py BeamDagRunner GraphBuilder.

Definition channel (tag : string) (p : option node_ref) : Channel :=
  {| type_tag := tag; producer := p |}.

(** The output channel every fake component of the tests has. *)
Definition output_of (n : node_ref) (tag : string) : string * Channel :=
  ("output", channel tag (Some n)).

(** [testPipeline] and [testRun]: [a]; [b] and [c] read the output of [a];
    [d] reads those of [b] and [c]; [e] reads those of [a], [b] and [d].
    The references 1 to 5 stand for [component_a] to [component_e]. *)
Definition test_node (n : node_ref) : Node :=
  match n with
  | 1 => {| identity := "component_a"; inputs := [];
            outputs := [output_of 1 "component_a"] |}
  | 2 => {| identity := "component_b";
            inputs := [("a", channel "component_a" (Some 1))];
            outputs := [output_of 2 "component_b"] |}
  | 3 => {| identity := "component_c";
            inputs := [("a", channel "component_a" (Some 1))];
            outputs := [output_of 3 "component_c"] |}
  | 4 => {| identity := "component_d";
            inputs := [("b", channel "component_b" (Some 2));
                       ("c", channel "component_c" (Some 3))];
            outputs := [output_of 4 "component_d"] |}
  | 5 => {| identity := "component_e";
            inputs := [("a", channel "component_a" (Some 1));
                       ("b", channel "component_b" (Some 2));
                       ("d", channel "component_d" (Some 4))];
            outputs := [output_of 5 "component_e"] |}
  | _ => {| identity := "component_other"; inputs := []; outputs := [] |}
  end.

(** The collection [testPipeline] passes: d, c, a, b, e, and a again. *)
Definition test_nodes : list node_ref := [4; 3; 1; 2; 5; 1].

(** [testPipelineWithLoop]: [a] is 1, and the components 2, 3 and 4 are
    all named [component_b]; 2 reads [channel_one] and writes
    [channel_two], 3 reads [channel_two] and writes [channel_three], 4
    reads [channel_three] and writes [channel_one]. *)
Definition loop_node (n : node_ref) : Node :=
  match n with
  | 1 => {| identity := "component_a"; inputs := [];
            outputs := [output_of 1 "component_a"] |}
  | 2 => {| identity := "component_b";
            inputs := [("a", channel "component_a" (Some 1));
                       ("one", channel "channel_one" (Some 4))];
            outputs := [("two", channel "channel_two" (Some 2));
                        output_of 2 "component_b"] |}
  | 3 => {| identity := "component_b";
            inputs := [("a", channel "component_a" (Some 1));
                       ("two", channel "channel_two" (Some 2))];
            outputs := [("three", channel "channel_three" (Some 3));
                        output_of 3 "component_b"] |}
  | 4 => {| identity := "component_b";
            inputs := [("a", channel "component_a" (Some 1));
                       ("three", channel "channel_three" (Some 3))];
            outputs := [("one", channel "channel_one" (Some 4));
                        output_of 4 "component_b"] |}
  | _ => {| identity := "component_other"; inputs := []; outputs := [] |}
  end.

(** The collection [testPipelineWithLoop] passes: c, d, b, a. *)
Definition loop_nodes : list node_ref := [3; 4; 2; 1].

(** The same loop under three different names. *)
Definition named_loop_node (n : node_ref) : Node :=
  match n with
  | 3 => {| identity := "component_c"; inputs := inputs (loop_node 3);
            outputs := outputs (loop_node 3) |}
  | 4 => {| identity := "component_d"; inputs := inputs (loop_node 4);
            outputs := outputs (loop_node 4) |}
  | _ => loop_node n
  end.

(** [testPipelineWithDuplicatedComponentId]: three components without
    inputs, all named [component_a]. *)
Definition duplicated_node (n : node_ref) : Node :=
  {| identity := "component_a"; inputs := [];
     outputs := [output_of n "component_a"] |}.

(** The pipeline of [testRun], as the runner sees it: the components in
    the order [build] gives them, with the upstream nodes it derives. *)
Definition test_component_id (c : component) : string := identity (test_node c).

Definition test_upstream_nodes (c : component) : list component :=
  upstream test_node (dedup test_nodes) c.

Definition test_pipeline : pipeline :=
  {| pipeline_name := "x";
     enable_cache := true;
     metadata_connection_config := "";
     additional_pipeline_args := 1;
     components :=
       match build test_node test_nodes with
       | inr order => order
       | inl _ => []
       end |}.

(** A world in which the additional pipeline arguments of the pipeline
    are [{'beam_pipeline_args': user_args}]. *)
Definition world_with (user_args : list string) : world :=
  {| heap := <[1 := PyDict (<[beam_pipeline_args := 2]> ∅)]>
               (<[2 := PyList user_args]> ∅);
     clock := 0; run_id := None; log := []; launched := [] |}.

Definition test_world : world := world_with ["--runner=PortableRunner"].

(** A clock that stands still at 2023-11-14 22:13:20, which the local
    time zone puts at 1700000000 seconds after the epoch. *)
Definition test_now (n : nat) : datetime :=
  {| year := 2023; month := 11; day := 14; hour := 22; minute := 13;
     second := 20; microsecond := 0 |}.

Definition test_timestamp (d : datetime) : Z := 1700000000.

(** A launcher that does nothing. *)
Definition test_launch (l : launcher) : M unit := mret ().

Definition export_environ : gmap string string :=
  {[ export_variable := "/tmp/pipeline_args.json" ]}.

(** The pipeline of [testRun] with [d] moved forward, before [c] and [b]
    that it reads from. *)
Definition unordered_pipeline : pipeline :=
  {| pipeline_name := "x";
     enable_cache := true;
     metadata_connection_config := "";
     additional_pipeline_args := 1;
     components := [1; 4; 3; 2; 5] |}.

(** A launcher whose component reads the clock once. *)
Definition ticking_launch (l : launcher) : M unit :=
  modify (λ w, set_clock (S (clock w)) w).

(** A launcher whose component fails. *)
Definition failing_launch (l : launcher) : M unit :=
  raise (RuntimeError "The executor failed.").

(** The execution unit of [a] in the pipeline of [testRun]. *)
Definition test_dofn : dofn :=
  {| _additional_pipeline_args := 3;
     _component_launcher :=
       {| launcher_component := 1; launcher_pipeline_name := "x";
          launcher_enable_cache := true;
          launcher_metadata_connection_config := "";
          launcher_additional_pipeline_args := 3 |};
     _component_id := "component_a" |}.

End Examples.

(** * Properties *)

(** ** Strings and job names *)

Section JobNameFacts.
Import PyStr JobName.

Lemma chars_app a b : chars (a +:+ b) = chars a ++ chars b.
Proof. induction a as [|c a IH]; simpl; [done | by rewrite IH]. Qed.

Lemma lower_app a b : lower (a +:+ b) = lower a +:+ lower b.
Proof. induction a as [|c a IH]; simpl; [done | by rewrite IH]. Qed.

Lemma lower_char_not_upper c : is_upper (lower_char c) = false.
Proof.
  destruct c as [[] [] [] [] [] [] [] []]; vm_compute; reflexivity.
Qed.

Lemma lower_char_fixed c : is_upper c = false → lower_char c = c.
Proof. unfold lower_char. by intros ->. Qed.

Lemma digit_or_dash_not_upper c : is_digit c || is_dash c → is_upper c = false.
Proof.
  destruct c as [[] [] [] [] [] [] [] []]; vm_compute; tauto.
Qed.

Lemma lower_fixed s :
  Forall (λ c, is_digit c || is_dash c) (chars s) → lower s = s.
Proof.
  induction s as [|c s IH]; simpl; [done|].
  intros [Hc Hs]%Forall_cons. rewrite IH by done.
  by rewrite lower_char_fixed by by apply digit_or_dash_not_upper.
Qed.

Lemma lower_no_upper s : Forall (λ c, is_upper c = false) (chars (lower s)).
Proof.
  induction s as [|c s IH]; simpl; constructor; auto using lower_char_not_upper.
Qed.

(** A character of the class splits the text that [re.sub] scans: no match
    of the pattern extends across it. *)
Lemma re_sub_from_app_class a c rest b :
  in_class c →
  re_sub_from b (a +:+ String c rest)
  = re_sub_from b a +:+ String c (re_sub_from false rest).
Proof.
  intros Hc. revert b. induction a as [|x a IH]; intros b; simpl.
  - by destruct (in_class c).
  - destruct (in_class x); simpl; [by rewrite IH|].
    destruct b; simpl; by rewrite IH.
Qed.

Lemma re_sub_from_app_dash a rest b :
  re_sub_from b (a +:+ "-" +:+ rest)
  = re_sub_from b a +:+ "-" +:+ re_sub_from false rest.
Proof. exact (re_sub_from_app_class a "-" rest b I). Qed.

Lemma re_sub_fixed s b : Forall (λ c, in_class c) (chars s) → re_sub_from b s = s.
Proof.
  revert b. induction s as [|c s IH]; intros b; simpl; [done|].
  intros [Hc Hs]%Forall_cons. destruct (in_class c); [|done]. by rewrite IH.
Qed.

Lemma re_sub_from_chars P s b :
  P "-"%char →
  Forall (λ c, in_class c → P c) (chars s) →
  Forall P (chars (re_sub_from b s)).
Proof.
  intros Hdash. revert b. induction s as [|c s IH]; intros b; simpl; [constructor|].
  intros [Hc Hs]%Forall_cons. destruct (in_class c) eqn:E.
  - simpl. constructor; [by apply Hc | by apply IH].
  - destruct b; simpl; [by apply IH|]. constructor; [done | by apply IH].
Qed.

(** A maximal run of characters outside the class becomes one dash. *)
Lemma re_sub_from_run r rest :
  Forall (λ c, ¬ in_class c) (chars r) →
  match rest with EmptyString => True | String c _ => in_class c end →
  re_sub_from true (r +:+ rest) = re_sub_from false rest.
Proof.
  intros Hr Hrest. induction r as [|x r IH]; simpl.
  - destruct rest as [|c rest]; simpl; [done|]. by destruct (in_class c).
  - apply Forall_cons in Hr as [Hx Hr]. destruct (in_class x); [done|]. by apply IH.
Qed.

Lemma re_sub_collapses_run u x r rest :
  Forall (λ c, in_class c) (chars u) →
  Forall (λ c, ¬ in_class c) (chars (String x r)) →
  match rest with EmptyString => True | String c _ => in_class c end →
  re_sub (u +:+ String x r +:+ rest) = u +:+ "-" +:+ re_sub rest.
Proof.
  intros Hu Hr Hrest. unfold re_sub.
  induction u as [|c u IH]; simpl.
  - apply Forall_cons in Hr as [Hx Hr]. simpl in Hx.
    destruct (in_class x); [done|].
    apply (f_equal (String "-")). by apply re_sub_from_run.
  - apply Forall_cons in Hu as [Hc Hu]. destruct (in_class c); [|done].
    apply (f_equal (String c)). by apply IH.
Qed.

Lemma string_of_uint_digits d :
  Forall (λ c, is_digit c) (chars (NilEmpty.string_of_uint d)).
Proof. induction d; simpl; constructor; done. Qed.

Lemma format_int_chars n :
  Forall (λ c, is_digit c || is_dash c) (chars (format_int n)).
Proof.
  assert (Hu : ∀ d, Forall (λ c, is_digit c || is_dash c) (chars (NilZero.string_of_uint d))).
  { intros d. unfold NilZero.string_of_uint.
    assert (H := string_of_uint_digits d).
    destruct d; try (eapply Forall_impl; [exact H|]; simpl; intros c Hc;
      by destruct (is_digit c)).
    repeat constructor. }
  unfold format_int, NilZero.string_of_int.
  destruct (Z.to_int n); [apply Hu|]. simpl. constructor; [done | apply Hu].
Qed.

Lemma digit_or_dash_in_class c : is_digit c || is_dash c → in_class c.
Proof. unfold in_class. destruct (is_digit c), (is_lower c), (is_upper c), (is_dash c); done. Qed.

Lemma format_int_sanitized n b : re_sub_from b (lower (format_int n)) = format_int n.
Proof.
  rewrite lower_fixed by apply format_int_chars.
  apply re_sub_fixed. eapply Forall_impl; [apply format_int_chars|].
  intros c. apply digit_or_dash_in_class.
Qed.

Lemma component_job_name_parts p c ts :
  component_job_name p c ts
  = re_sub (lower p) +:+ "-" +:+ re_sub (lower c) +:+ "-" +:+ format_int ts.
Proof.
  unfold component_job_name, component_template, re_sub.
  rewrite !lower_app. change (lower "-") with "-".
  by rewrite !re_sub_from_app_dash, format_int_sanitized.
Qed.

Lemma orchestrator_job_name_parts p ts :
  orchestrator_job_name p ts = re_sub (lower p) +:+ "-" +:+ format_int ts.
Proof.
  unfold orchestrator_job_name, orchestrator_template, re_sub.
  rewrite !lower_app. change (lower "-") with "-".
  by rewrite re_sub_from_app_dash, format_int_sanitized.
Qed.

Lemma sanitized_lower_chars s : Forall (λ c, job_name_char c) (chars (re_sub (lower s))).
Proof.
  apply re_sub_from_chars; [done|].
  eapply Forall_impl; [apply lower_no_upper|]. simpl. intros c Hc. unfold in_class, job_name_char.
  rewrite Hc. destruct (is_digit c), (is_lower c), (is_dash c); done.
Qed.

(** C5: the job name of a component is the sanitized pipeline name, the
    sanitized component id and the timestamp, joined by dashes, where to
    sanitize is to lower-case and to replace every maximal run of
    characters outside [[0-9a-zA-Z-]] by one dash; what comes out consists
    of digits, lower-case letters and dashes; and the orchestrator's job
    name for the pipeline name "My Pipeline!" at timestamp 1700000000 is
    "my-pipeline--1700000000". *)
Theorem job_name_pattern :
  (∀ p c ts,
     component_job_name p c ts
     = re_sub (lower p) +:+ "-" +:+ re_sub (lower c) +:+ "-" +:+ format_int ts
     ∧ Forall (λ ch, job_name_char ch) (chars (component_job_name p c ts))) ∧
  (∀ p ts,
     orchestrator_job_name p ts = re_sub (lower p) +:+ "-" +:+ format_int ts
     ∧ Forall (λ ch, job_name_char ch) (chars (orchestrator_job_name p ts))) ∧
  (∀ u x r rest,
     Forall (λ ch, in_class ch) (chars u) →
     Forall (λ ch, ¬ in_class ch) (chars (String x r)) →
     match rest with EmptyString => True | String ch _ => in_class ch end →
     re_sub (u +:+ String x r +:+ rest) = u +:+ "-" +:+ re_sub rest) ∧
  orchestrator_job_name "My Pipeline!" 1700000000 = "my-pipeline--1700000000".
Proof.
  split; [|split; [|split]].
  - intros p c ts. split; [apply component_job_name_parts|].
    apply sanitized_lower_chars.
  - intros p ts. split; [apply orchestrator_job_name_parts|].
    apply sanitized_lower_chars.
  - apply re_sub_collapses_run.
  - reflexivity.
Qed.

End JobNameFacts.

(** ** Timestamps *)

Section DateTimeFacts.
Import PyStr DateTime.

Lemma digit_value_char n : digit_value (digit_char n) = Some (n mod 10)%N.
Proof.
  unfold digit_char.
  assert (Hlt : (n mod 10 < 10)%N) by (apply N.mod_lt; lia).
  destruct (n mod 10)%N as [|p]; [reflexivity|].
  do 4 (destruct p as [p|p|]; try lia; try reflexivity).
Qed.

Lemma read_zero_padded w : ∀ n acc rest,
  read_digits w acc (zero_padded w n +:+ rest)
  = Some ((acc * 10 ^ N.of_nat w + n mod 10 ^ N.of_nat w)%N, rest).
Proof.
  induction w as [|w IH]; intros n acc rest.
  - simpl. rewrite N.mod_1_r. do 2 f_equal. lia.
  - change (read_digits (S w) acc (zero_padded (S w) n +:+ rest))
      with (match digit_value (digit_char (n / 10 ^ N.of_nat w)) with
            | Some v => read_digits w (10 * acc + v)%N (zero_padded w n +:+ rest)
            | None => None
            end).
    rewrite digit_value_char, IH. do 2 f_equal.
    rewrite Nat2N.inj_succ, N.pow_succ_r'.
    rewrite (N.mul_comm 10 (10 ^ N.of_nat w)).
    rewrite N.Div0.mod_mul_r. lia.
Qed.

Lemma read_field w n rest :
  (n < 10 ^ N.of_nat w)%N →
  read_digits w 0 (zero_padded w n +:+ rest) = Some (n, rest).
Proof.
  intros Hn. rewrite read_zero_padded, N.mod_small by done. do 2 f_equal.
Qed.

Lemma append_empty s : s +:+ "" = s.
Proof. induction s as [|c s IH]; [done|]. apply (f_equal (String c)), IH. Qed.

Lemma read_separator c rest : read_char c (String c "" +:+ rest) = Some rest.
Proof.
  change (String c "" +:+ rest) with (String c rest). simpl.
  by rewrite Ascii.eqb_refl.
Qed.

Lemma read_fraction_format us :
  (us < 1000000)%N →
  read_fraction (if (us =? 0)%N then "" else "." +:+ zero_padded 6 us) = Some us.
Proof.
  intros Hus. destruct (us =? 0)%N eqn:E.
  - apply N.eqb_eq in E as ->. reflexivity.
  - rewrite <- (append_empty (zero_padded 6 us)).
    change (read_fraction ("." +:+ zero_padded 6 us +:+ ""))
      with ('(v, s) ← read_digits 6 0 (zero_padded 6 us +:+ "");
            match s with
            | EmptyString => if (v =? 0)%N then None else Some v
            | _ => None
            end).
    rewrite read_field by (simpl; lia). simpl. by rewrite E.
Qed.

Lemma valid_bounds d :
  valid d →
  (year d < 10 ^ N.of_nat 4 ∧ month d < 10 ^ N.of_nat 2 ∧ day d < 10 ^ N.of_nat 2 ∧
   hour d < 10 ^ N.of_nat 2 ∧ minute d < 10 ^ N.of_nat 2 ∧
   second d < 10 ^ N.of_nat 2 ∧ microsecond d < 1000000)%N.
Proof.
  unfold valid. rewrite !andb_True.
  intros [[[[[[[[[_ Hy] _] Hm] _] Hd] Hh] Hmi] Hs] Hus].
  apply Is_true_eq_true in Hy, Hm, Hd, Hh, Hmi, Hs, Hus.
  apply N.leb_le in Hy, Hm, Hd. apply N.ltb_lt in Hh, Hmi, Hs, Hus.
  assert (days_in_month (year d) (month d) <= 31)%N.
  { unfold days_in_month. destruct (month d) as [|p]; [lia|].
    destruct (is_leap (year d));
      do 4 (try (destruct p as [p|p|]; try lia)). }
  simpl. lia.
Qed.

(** Reading back what [isoformat] printed gives the [datetime] again, so
    the string is a well-formed ISO-8601 timestamp. *)
Lemma parse_isoformat d : valid d → parse_iso8601 (isoformat d) = Some d.
Proof.
  intros Hv.
  destruct (valid_bounds d Hv) as (Hy & Hm & Hd & Hh & Hmi & Hs & Hus).
  unfold parse_iso8601, isoformat.
  rewrite read_field by done. cbn [mbind option_bind].
  rewrite read_separator. cbn [mbind option_bind].
  rewrite read_field by done. cbn [mbind option_bind].
  rewrite read_separator. cbn [mbind option_bind].
  rewrite read_field by done. cbn [mbind option_bind].
  rewrite read_separator. cbn [mbind option_bind].
  rewrite read_field by done. cbn [mbind option_bind].
  rewrite read_separator. cbn [mbind option_bind].
  rewrite read_field by done. cbn [mbind option_bind].
  rewrite read_separator. cbn [mbind option_bind].
  rewrite read_field by done. cbn [mbind option_bind].
  rewrite read_fraction_format by done. cbn [mbind option_bind].
  destruct d as [y mo dd h mi s us]. simpl in *.
  apply Is_true_eq_true in Hv. by rewrite Hv.
Qed.

Lemma isoformat_is_iso8601 d : valid d → is_iso8601 (isoformat d) = true.
Proof. intros Hv. unfold is_iso8601. by rewrite parse_isoformat. Qed.

End DateTimeFacts.

(** ** Reasoning about computations *)

Section Wp.
Import Py.

Lemma wp_ret {A} (a : A) Q E w : Q a w → wp (mret a) Q E w.
Proof. done. Qed.

Lemma wp_raise {A} e (Q : A → world → Prop) E w : E e w → wp (raise e) Q E w.
Proof. done. Qed.

Lemma wp_bind {A B} (m : M A) (f : A → M B) Q E w :
  wp m (λ a, wp (f a) Q E) E w → wp (m ≫= f) Q E w.
Proof.
  unfold wp, mbind, M_bind. by destruct (m w) as [[a|e] w'].
Qed.

Lemma wp_modify f Q E w : Q () (f w) → wp (modify f) Q E w.
Proof. done. Qed.

Lemma wp_info e Q E w : Q () (set_log (log w ++ [e]) w) → wp (info e) Q E w.
Proof. done. Qed.

Lemma wp_alloc o Q E w :
  (∀ l, heap w !! l = None → Q l (set_heap (<[l := o]> (heap w)) w)) →
  wp (alloc o) Q E w.
Proof. intros H. apply H, not_elem_of_dom, is_fresh. Qed.

Lemma wp_read_dict l Q E w :
  match heap w !! l with
  | Some (PyDict entries) => Q entries w
  | _ => E TypeError w
  end → wp (read_dict l) Q E w.
Proof. unfold wp, read_dict. by destruct (heap w !! l) as [[]|]. Qed.

Lemma wp_read_list l Q E w :
  match heap w !! l with
  | Some (PyList items) => Q items w
  | _ => E TypeError w
  end → wp (read_list l) Q E w.
Proof. unfold wp, read_list. by destruct (heap w !! l) as [[]|]. Qed.

Lemma wp_store l o Q E w :
  Q () (set_heap (<[l := o]> (heap w)) w) → wp (store l o) Q E w.
Proof. done. Qed.

Lemma wp_value {A} (m : M A) Q E w :
  wp m Q E w → ∀ a w', m w = (Return a, w') → Q a w'.
Proof. unfold wp. intros H a w' Hm. by rewrite Hm in H. Qed.

End Wp.

(** ** The execution unit *)

Ltac wsimpl :=
  cbn [Py.heap Py.clock Py.run_id Py.log Py.launched Py.set_heap Py.set_clock
       Py.set_run_id Py.set_log Py.set_launched fst snd].
Tactic Notation "wsimpl" "in" hyp(H) :=
  cbn [Py.heap Py.clock Py.run_id Py.log Py.launched Py.set_heap Py.set_clock
       Py.set_run_id Py.set_log Py.set_launched fst snd] in H.

Section DoFnFacts.
Import PyStr JobName DateTime Py BeamDagRunner.

Variable component_id : component → string.
Variable now : nat → datetime.
Variable timestamp : datetime → Z.
Variable launch : launcher → M unit.

Local Abbreviation init := (ComponentAsDoFn_init component_id now timestamp).
Local Abbreviation constructed := (constructed component_id now timestamp).

Lemma init_spec c tp w :
  wp (init c tp)
     (λ fn w', untouched w w' ∧ constructed c tp w fn w')
     (λ e w', untouched w w' ∧ ∀ user_args, ¬ args_ok w (additional_pipeline_args tp) user_args)
     w.
Proof.
  unfold ComponentAsDoFn_init, dict_copy, dict_setdefault, dict_setitem,
    dict_getitem, list_append.
  apply wp_bind, wp_bind, wp_read_dict.
  destruct (heap w !! additional_pipeline_args tp) as [[items|entries]|] eqn:HA.
  1,3: split; [done|]; intros ua (? & ? & _); congruence.
  apply wp_alloc. intros a Ha.
  apply wp_bind. unfold wp at 1, datetime_now.
  apply wp_bind, wp_alloc. intros df Hdf. wsimpl in Hdf.
  apply wp_bind, wp_bind, wp_read_dict. wsimpl.
  assert (Hne : a ≠ df) by (intros ->; by rewrite lookup_insert_eq in Hdf).
  rewrite lookup_insert_ne in Hdf by done.
  rewrite lookup_insert_ne, lookup_insert_eq by done.
  assert (Hfresh : ∀ l, l ∈ dom (heap w) → l ≠ a ∧ l ≠ df).
  { intros l [o Hl]%elem_of_dom. split; intros ->; congruence. }
  destruct (entries !! beam_pipeline_args) as [v|] eqn:Hv.
  - apply wp_ret, wp_bind, wp_read_list. wsimpl.
    destruct (<[df:=PyList []]> (<[a:=PyDict entries]> (heap w)) !! v)
      as [[items|?]|] eqn:Hitems.
    2,3: split; [repeat split; try done; intros l [? ?]%Hfresh; wsimpl;
                 by rewrite !lookup_insert_ne by done|];
         intros ua (e' & He' & Hua); rewrite HA in He'; injection He' as <-;
         rewrite Hv in Hua;
         assert (v ≠ a ∧ v ≠ df) as [? ?] by (apply Hfresh, elem_of_dom; eauto);
         rewrite !lookup_insert_ne in Hitems by done; congruence.
    apply wp_bind, wp_alloc. intros kept Hkept. wsimpl in Hkept.
    assert (kept ≠ df) by (intros ->; by rewrite lookup_insert_eq in Hkept).
    rewrite lookup_insert_ne in Hkept by done.
    assert (kept ≠ a) by (intros ->; by rewrite lookup_insert_eq in Hkept).
    rewrite lookup_insert_ne in Hkept by done.
    apply wp_bind, wp_bind, wp_read_dict. wsimpl.
    rewrite !lookup_insert_ne, lookup_insert_eq by done.
    apply wp_store. wsimpl.
    apply wp_bind, wp_bind, wp_read_dict. wsimpl.
    rewrite lookup_insert_eq, lookup_insert_eq.
    apply wp_ret, wp_bind, wp_bind, wp_read_list. wsimpl.
    rewrite lookup_insert_ne, lookup_insert_eq by done.
    apply wp_store, wp_ret. wsimpl.
    split.
    + repeat split; try done. intros l Hl. destruct (Hfresh l Hl). wsimpl.
      assert (l ≠ kept) by (intros ->; apply elem_of_dom in Hl as [? ?]; congruence).
      by rewrite !lookup_insert_ne by done.
    + repeat split; try done.
      intros ua (e' & He' & Hua). rewrite HA in He'. injection He' as <-.
      rewrite Hv in Hua.
      unfold list_at. wsimpl.
      assert (v ≠ a ∧ v ≠ df) as [? ?] by (apply Hfresh, elem_of_dom; eauto).
      rewrite !lookup_insert_ne in Hitems by done.
      rewrite lookup_insert_ne, lookup_insert_eq by done.
      rewrite lookup_insert_eq, lookup_insert_eq. congruence.
  - apply wp_bind, wp_store, wp_ret, wp_bind, wp_read_list. wsimpl.
    rewrite lookup_insert_ne, lookup_insert_eq by done.
    apply wp_bind, wp_alloc. intros kept Hkept. wsimpl in Hkept.
    assert (kept ≠ a) by (intros ->; by rewrite lookup_insert_eq in Hkept).
    rewrite lookup_insert_ne in Hkept by done.
    assert (kept ≠ df) by (intros ->; by rewrite lookup_insert_eq in Hkept).
    rewrite lookup_insert_ne in Hkept by done.
    rewrite lookup_insert_ne in Hkept by done.
    apply wp_bind, wp_bind, wp_read_dict. wsimpl.
    rewrite lookup_insert_ne, lookup_insert_eq by done.
    apply wp_store. wsimpl.
    apply wp_bind, wp_bind, wp_read_dict. wsimpl.
    rewrite lookup_insert_eq, lookup_insert_eq.
    apply wp_ret, wp_bind, wp_bind, wp_read_list. wsimpl.
    rewrite lookup_insert_ne, lookup_insert_eq by done.
    apply wp_store, wp_ret. wsimpl.
    split.
    + repeat split; try done. intros l Hl. destruct (Hfresh l Hl). wsimpl.
      assert (l ≠ kept) by (intros ->; apply elem_of_dom in Hl as [? ?]; congruence).
      by rewrite !lookup_insert_ne by done.
    + repeat split; try done.
      intros ua (e' & He' & Hua). rewrite HA in He'. injection He' as <-.
      rewrite Hv in Hua. subst ua.
      unfold list_at. wsimpl.
      rewrite lookup_insert_ne, lookup_insert_eq by done.
      by rewrite lookup_insert_eq, lookup_insert_eq.
Qed.

Lemma init_returns c tp w user_args :
  args_ok w (additional_pipeline_args tp) user_args →
  ∃ fn w', init c tp w = (Return fn, w') ∧ untouched w w' ∧ constructed c tp w fn w'.
Proof.
  intros Hok. assert (H := init_spec c tp w). unfold wp in H.
  destruct (init c tp w) as [[fn|e] w'].
  - exists fn, w'. by destruct H.
  - destruct H as [_ H]. by destruct (H user_args).
Qed.

Lemma init_untouched c tp w : untouched w (init c tp w).2.
Proof.
  assert (H := init_spec c tp w). unfold wp in H.
  destruct (init c tp w) as [[fn|e] w']; by destruct H.
Qed.

Lemma startswith_job_name_flag name : startswith job_name_prefix (job_name_flag name) = true.
Proof. reflexivity. Qed.

Lemma filter_job_name_stripped (l : list string) :
  filter (λ arg, startswith job_name_prefix arg)
         (filter (λ arg, ¬ startswith job_name_prefix arg) l) = [].
Proof.
  induction l as [|x l IH]; [done|].
  rewrite (filter_cons (λ arg, ¬ startswith job_name_prefix arg)).
  destruct (decide (¬ startswith job_name_prefix x)) as [Hx|Hx]; [|done].
  rewrite filter_cons. by destruct (decide (startswith job_name_prefix x)).
Qed.

(** C6: when the constructor returns, the list of Beam arguments of the
    execution unit is the user's list without any argument that starts
    with "--job_name", followed by the derived job name argument; that
    argument is the only one of the list that starts with "--job_name". *)
Theorem dofn_single_job_name c tp w user_args :
  args_ok w (additional_pipeline_args tp) user_args →
  ∃ fn w' effective,
    init c tp w = (Return fn, w') ∧
    launcher_additional_pipeline_args (_component_launcher fn)
    = _additional_pipeline_args fn ∧
    list_at w' (_additional_pipeline_args fn) beam_pipeline_args = Some effective ∧
    let derived :=
      job_name_flag (component_job_name (pipeline_name tp) (component_id c)
                       (timestamp (now (clock w)))) in
    effective = filter (λ arg, ¬ startswith job_name_prefix arg) user_args ++ [derived] ∧
    filter (λ arg, startswith job_name_prefix arg) effective = [derived].
Proof.
  intros Hok. destruct (init_returns c tp w user_args Hok) as (fn & w' & Hr & _ & Hc).
  destruct Hc as (_ & Hl & _ & _ & Hlist). specialize (Hlist user_args Hok).
  eexists fn, w', _. repeat split; [done | by rewrite Hl | done |].
  rewrite filter_app, filter_job_name_stripped. done.
Qed.

(** C10: whatever the constructor does, every object that was on the heap
    before it ran is there unchanged afterwards; so the dict of additional
    pipeline arguments of the pipeline and the list of Beam arguments it
    holds are what they were, and so is the run id of the pipeline. *)
Theorem dofn_init_frame c tp w :
  let w' := (init c tp w).2 in
  (∀ l o, heap w !! l = Some o → heap w' !! l = Some o) ∧
  (∀ entries, heap w !! additional_pipeline_args tp = Some (PyDict entries) →
     heap w' !! additional_pipeline_args tp = Some (PyDict entries)) ∧
  (∀ user_args, args_ok w (additional_pipeline_args tp) user_args →
     args_ok w' (additional_pipeline_args tp) user_args) ∧
  (∀ items, list_at w (additional_pipeline_args tp) beam_pipeline_args = Some items →
     list_at w' (additional_pipeline_args tp) beam_pipeline_args = Some items) ∧
  run_id w' = run_id w.
Proof.
  intros w'. destruct (init_untouched c tp w) as (Hheap & Hrun & _).
  assert (Hkeep : ∀ l o, heap w !! l = Some o → heap w' !! l = Some o).
  { intros l o Hl. unfold w'. rewrite Hheap; [done|]. apply elem_of_dom; eauto. }
  repeat split; [done | auto | | | done].
  - intros ua (entries & He & Hua). exists entries. split; [auto|].
    destruct (entries !! beam_pipeline_args); auto.
  - intros items. unfold list_at.
    destruct (heap w !! additional_pipeline_args tp) as [[|entries]|] eqn:He; try done.
    rewrite (Hkeep _ _ He).
    destruct (entries !! beam_pipeline_args) as [l|]; [|done].
    destruct (heap w !! l) as [[its|]|] eqn:Hl; try done.
    by rewrite (Hkeep _ _ Hl).
Qed.

(** *** [process] *)

Lemma assert_all_empty {A} (signals : list (list A)) w :
  Forall (λ s, s = []) signals → for_each assert_empty signals w = (Return (), w).
Proof.
  induction 1 as [|s signals -> _ IH]; [done|].
  cbn [for_each]. unfold mbind, M_bind. cbn [assert_empty]. exact IH.
Qed.

Lemma assert_some_nonempty {A} (signals : list (list A)) w :
  Exists (λ s, s ≠ []) signals →
  for_each assert_empty signals w
  = (Raise (AssertionError "Signal PCollection should be empty."), w).
Proof.
  induction signals as [|s signals IH]; intros H; [by apply Exists_nil in H|].
  cbn [for_each]. unfold mbind, M_bind. destruct s as [|x s]; [|done].
  cbn [assert_empty]. apply Exists_cons in H as [?|H]; [done|]. by apply IH.
Qed.

Lemma run_component_launched self w :
  launched (_run_component launch self w).2
  = launched w ++ [launcher_component (_component_launcher self)].
Proof.
  unfold _run_component, call_launch, info, modify, mbind, M_bind.
  destruct (launch _ _) as [[[]|e] w2]; done.
Qed.

(** What [_run_component] does: the line that the component is running,
    one call of the launcher, and the line that it is finished when the
    call returns. *)
Lemma run_component_eq self w :
  _run_component launch self w
  = match launch (_component_launcher self)
            (set_log (log w ++ [LogRunning (_component_id self)]) w) with
    | (Return _, w1) =>
        (Return (),
         set_log (log w1 ++ [LogFinished (_component_id self)])
           (set_launched
              (launched w ++ [launcher_component (_component_launcher self)]) w1))
    | (Raise e, w1) =>
        (Raise e,
         set_launched
           (launched w ++ [launcher_component (_component_launcher self)]) w1)
    end.
Proof.
  unfold _run_component, call_launch, info, modify, mbind, M_bind. wsimpl.
  by destruct (launch _ _) as [[[]|e] w1].
Qed.

(** C2: an invocation of [process] with a non-empty signal raises the
    assertion error and leaves the world as it was, whatever the launcher
    would have done to it: the launcher is not called. An invocation
    whose signals are all empty runs the component, which calls the
    launcher once: the launcher is applied, one time, to the world in
    which the line that the component is running is logged, and its
    outcome decides that of the invocation. When it raises, [process]
    raises the same from the world the launcher left; when it returns,
    [process] logs in that world that the component is finished and
    returns. Either way the call is on record. *)
Theorem process_checks_signals {A} self (element : A) (signals : list (list A)) w :
  (Exists (λ s, s ≠ []) signals →
     process launch self element signals w
     = (Raise (AssertionError "Signal PCollection should be empty."), w)) ∧
  (Forall (λ s, s = []) signals →
     process launch self element signals w = _run_component launch self w ∧
     launched (process launch self element signals w).2
     = launched w ++ [launcher_component (_component_launcher self)] ∧
     process launch self element signals w
     = match launch (_component_launcher self)
               (set_log (log w ++ [LogRunning (_component_id self)]) w) with
       | (Return _, w1) =>
           (Return (),
            set_log (log w1 ++ [LogFinished (_component_id self)])
              (set_launched
                 (launched w ++ [launcher_component (_component_launcher self)]) w1))
       | (Raise e, w1) =>
           (Raise e,
            set_launched
              (launched w ++ [launcher_component (_component_launcher self)]) w1)
       end).
Proof.
  split; intros H.
  - unfold process, mbind, M_bind. by rewrite assert_some_nonempty.
  - assert (Heq : process launch self element signals w = _run_component launch self w).
    { unfold process at 1, mbind at 1, M_bind at 1. by rewrite assert_all_empty. }
    split; [done|]. rewrite Heq. split; [apply run_component_launched|].
    apply run_component_eq.
Qed.

End DoFnFacts.

(** ** The scheduling loop of [run] *)

Section RunFacts.
Import PyStr JobName DateTime Py BeamDagRunner.

Variable component_id : component → string.
Variable upstream_nodes : component → list component.
Variable now : nat → datetime.
Variable timestamp : datetime → Z.

Local Abbreviation init := (ComponentAsDoFn_init component_id now timestamp).
Local Abbreviation schedule := (schedule component_id upstream_nodes now timestamp).
Local Abbreviation schedule_all := (schedule_all component_id upstream_nodes now timestamp).
Local Abbreviation deploy := (deploy component_id upstream_nodes now timestamp).
Local Abbreviation run := (run component_id upstream_nodes now timestamp).
Local Abbreviation signal_of := (signal_of component_id).
Local Abbreviation signals_of := (signals_of component_id).
Local Abbreviation topological := (topological upstream_nodes).
Local Abbreviation unit_of := (unit_of component_id upstream_nodes).
Local Abbreviation started := (started now).

Lemma kept_refl w : kept w w.
Proof. done. Qed.

Lemma kept_trans w1 w2 w3 : kept w1 w2 → kept w2 w3 → kept w1 w3.
Proof.
  intros (H1 & H2 & H3) (H4 & H5 & H6). repeat split; [auto | congruence..].
Qed.

Lemma untouched_kept w w' : untouched w w' → kept w w'.
Proof.
  intros (Hh & Hr & _ & Hl). repeat split; [|done..].
  intros l o Hlo. rewrite Hh; [done|]. apply elem_of_dom; eauto.
Qed.

Lemma args_ok_kept w w' d ua : kept w w' → args_ok w d ua → args_ok w' d ua.
Proof.
  intros (Hh & _) (entries & He & Hua). exists entries. split; [auto|].
  destruct (entries !! beam_pipeline_args); auto.
Qed.

Lemma wp_mono {A} (m : M A) (Q Q' : A → world → Prop) (E E' : exn → world → Prop) w :
  wp m Q E w → (∀ a w', Q a w' → Q' a w') → (∀ e w', E e w' → E' e w') →
  wp m Q' E' w.
Proof. unfold wp. destruct (m w) as [[a|e] w']; auto. Qed.

Lemma wait_for_eq sm ups acc w :
  wait_for sm ups acc w
  = match mapM (λ u, sm !! u) ups with
    | Some l => (Return (acc ++ l), w)
    | None => (Raise not_topological, w)
    end.
Proof.
  revert acc. induction ups as [|u ups IH]; intros acc; cbn.
  - unfold mret, M_ret. by rewrite app_nil_r.
  - destruct (sm !! u) as [s|]; [|done]. rewrite IH. cbn.
    destruct (mapM _ ups); cbn; [|done]. by rewrite <- app_assoc.
Qed.

Lemma mapM_signals done sm ups :
  signals_of done sm →
  mapM (λ u, sm !! u) ups
  = if decide (Forall (λ u, u ∈ done) ups) then Some (signal_of <$> ups) else None.
Proof.
  intros Hsm. induction ups as [|u ups IH]; [done|].
  cbn [mapM]. rewrite Hsm, IH.
  destruct (decide (u ∈ done)) as [Hu|Hu]; cbn.
  - destruct (decide (Forall _ ups)) as [Hf|Hf]; cbn.
    + by rewrite decide_True by by constructor.
    + rewrite decide_False; [done|]. by intros [_ ?]%Forall_cons.
  - rewrite decide_False; [done|]. by intros [? _]%Forall_cons.
Qed.

(** What one round of the loop does. *)
Lemma schedule_spec tp root st c w :
  wp (schedule tp root st c)
     (λ st2 w2, ∃ fn signals,
        mapM (λ u, signal_map st !! u) (upstream_nodes c) = Some signals ∧
        st2 = {| signal_map := <[c := signal_of c]> (signal_map st);
                 transforms := transforms st ++
                   [ParDo (run_label (component_id c)) fn root signals] |} ∧
        launcher_component (_component_launcher fn) = c ∧
        (run_label (component_id c) ∉ full_label <$> transforms st) ∧
        kept w w2)
     (λ e w2, kept w w2 ∧
        match mapM (λ u, signal_map st !! u) (upstream_nodes c) with
        | None => e = not_topological ∧ w2 = w
        | Some _ =>
            (∀ ua, ¬ args_ok w (additional_pipeline_args tp) ua) ∨
            run_label (component_id c) ∈ (full_label <$> transforms st)
        end)
     w.
Proof.
  unfold BeamDagRunner.schedule. apply wp_bind. unfold wp at 1.
  rewrite wait_for_eq.
  destruct (mapM _ (upstream_nodes c)) as [signals|] eqn:Hsig; [|done].
  rewrite app_nil_l. apply wp_bind, wp_info, wp_bind.
  eapply wp_mono; [apply init_spec| |].
  - intros fn w1 [Hu (_ & Hl & _)]. apply untouched_kept in Hu.
    apply wp_bind. unfold apply.
    destruct (decide (_ ∈ _)) as [Hin|Hin]; [by apply wp_raise; split; [|right]|].
    apply wp_ret, wp_bind, wp_info, wp_ret.
    exists fn, signals. repeat split; try done; try apply Hu.
    by rewrite Hl.
  - intros e w1 [Hu Hno]. apply untouched_kept in Hu. split; [done|]. by left.
Qed.

Lemma schedule_all_app tp root pre rest st w :
  schedule_all tp root (pre ++ rest) st w
  = match schedule_all tp root pre st w with
    | (Return st1, w1) => schedule_all tp root rest st1 w1
    | (Raise e, w1) => (Raise e, w1)
    end.
Proof.
  revert st w. induction pre as [|c pre IH]; intros st w; [done|].
  cbn [app BeamDagRunner.schedule_all]. unfold mbind, M_bind.
  destruct (schedule tp root st c w) as [[st1|e] w1]; [apply IH | done].
Qed.

Lemma signals_of_insert done sm c :
  signals_of done sm → signals_of (done ++ [c]) (<[c := signal_of c]> sm).
Proof.
  intros Hsm u. destruct (decide (c = u)) as [->|Hne].
  - rewrite lookup_insert_eq, decide_True; [done|]. set_solver.
  - rewrite lookup_insert_ne, Hsm by done.
    destruct (decide (u ∈ done)).
    + rewrite decide_True; [done|]. set_solver.
    + rewrite decide_False; [done|]. set_solver.
Qed.

(** What the loop has done when it ends normally. *)
Lemma schedule_all_returns tp root cs : ∀ done st w st' w',
  signals_of done (signal_map st) →
  schedule_all tp root cs st w = (Return st', w') →
  signals_of (done ++ cs) (signal_map st') ∧
  (∃ units, transforms st' = transforms st ++ units ∧ Forall2 (unit_of root) cs units) ∧
  (∀ pre c post, cs = pre ++ c :: post → ∀ u, u ∈ upstream_nodes c → u ∈ done ++ pre) ∧
  kept w w'.
Proof.
  induction cs as [|c cs IH]; intros done st w st' w' Hsm Hrun.
  - injection Hrun as <- <-. rewrite app_nil_r. repeat split; try done.
    + exists []. by rewrite app_nil_r.
    + intros [|??] ? ? ?; done.
  - cbn [BeamDagRunner.schedule_all] in Hrun. unfold mbind, M_bind in Hrun.
    assert (Hs := schedule_spec tp root st c w). unfold wp in Hs.
    destruct (schedule tp root st c w) as [[st1|e] w1]; [|done].
    destruct Hs as (fn & signals & Hsig & -> & Hfn & _ & Hk).
    rewrite (mapM_signals done) in Hsig by done.
    destruct (decide (Forall _ _)) as [Hup|]; [|done]. injection Hsig as <-.
    apply IH with (done := done ++ [c]) in Hrun
      as (Hsm' & (units & Htr & Hunits) & Htop & Hk');
      [|by apply signals_of_insert].
    rewrite <- app_assoc in Hsm'. split; [|split; [|split]].
    + done.
    + eexists (_ :: units). cbn [transforms] in Htr. rewrite Htr, <- app_assoc.
      split; [done|]. constructor; [by exists fn | done].
    + intros [|c0 pre] c1 post Heq u Hu; injection Heq as -> ->.
      * rewrite app_nil_r. by eapply Forall_forall in Hup.
      * specialize (Htop pre c1 post eq_refl u Hu).
        by rewrite <- app_assoc in Htop.
    + by eapply kept_trans.
Qed.

(** A round whose component has an upstream node without a signal raises
    and changes nothing. *)
Lemma schedule_missing tp root st c w :
  (∃ u, u ∈ upstream_nodes c ∧ signal_map st !! u = None) →
  schedule tp root st c w = (Raise not_topological, w).
Proof.
  intros (u & Hu & Hnone).
  assert (Hs := schedule_spec tp root st c w). unfold wp in Hs.
  assert (Hsig : mapM (λ u, signal_map st !! u) (upstream_nodes c) = None).
  { destruct (mapM _ _) as [l|] eqn:Hl; [|done].
    apply mapM_Some_1 in Hl.
    apply list_elem_of_lookup in Hu as [i Hi].
    destruct (Forall2_lookup_l _ _ _ _ _ Hl Hi) as (s & _ & Hs'). congruence. }
  rewrite Hsig in Hs.
  destruct (schedule tp root st c w) as [[st2|e] w2].
  - destruct Hs as (? & ? & ? & _). congruence.
  - by destruct Hs as (_ & -> & ->).
Qed.

Lemma append_bracket_inj a b : a +:+ "]" = b +:+ "]" → a = b.
Proof.
  revert b. induction a as [|x a IH]; intros [|y b] H; try done.
  - injection H as _ H. by destruct b.
  - injection H as _ H. by destruct a.
  - injection H as -> H. f_equal. by apply IH.
Qed.

Lemma run_label_inj a b : run_label a = run_label b → a = b.
Proof. unfold run_label. intros H. injection H as H. by apply append_bracket_inj. Qed.

(** The loop ends normally on a list in topological order whose component
    ids are distinct, when the additional pipeline arguments are well
    formed. *)
Lemma schedule_all_succeeds tp root cs : ∀ done st w ua,
  signals_of done (signal_map st) →
  (∀ l, l ∈ full_label <$> transforms st →
        (∀ id, l ≠ run_label id) ∨ ∃ u, u ∈ done ∧ l = run_label (component_id u)) →
  NoDup (component_id <$> (done ++ cs)) →
  (∀ pre c post, cs = pre ++ c :: post → ∀ u, u ∈ upstream_nodes c → u ∈ done ++ pre) →
  args_ok w (additional_pipeline_args tp) ua →
  ∃ st' w', schedule_all tp root cs st w = (Return st', w').
Proof.
  induction cs as [|c cs IH]; intros done st w ua Hsm Hlab Hnd Htop Hok; [by eexists _, _|].
  cbn [BeamDagRunner.schedule_all]. unfold mbind, M_bind.
  assert (Hs := schedule_spec tp root st c w). unfold wp in Hs.
  assert (Hup : Forall (λ u, u ∈ done) (upstream_nodes c)).
  { apply Forall_forall. intros u Hu.
    specialize (Htop [] c cs eq_refl u Hu). by rewrite app_nil_r in Htop. }
  rewrite (mapM_signals done) in Hs by done. rewrite decide_True in Hs by done.
  destruct (schedule tp root st c w) as [[st1|e] w1].
  - destruct Hs as (fn & signals & _ & -> & _ & _ & Hk).
    apply (IH (done ++ [c]) _ _ ua).
    + by apply signals_of_insert.
    + cbn [transforms]. rewrite fmap_app. intros l [Hl|Hl]%elem_of_app.
      * destruct (Hlab l Hl) as [?|(u & ? & ?)]; [by left|].
        right. exists u. split; [set_solver | done].
      * right. exists c. split; [set_solver|]. cbn in Hl. set_solver.
    + by rewrite <- app_assoc.
    + intros pre c1 post -> u Hu. rewrite <- app_assoc.
      by apply (Htop (c :: pre) c1 post).
    + by eapply args_ok_kept.
  - exfalso. destruct Hs as (_ & [Hno|Hin]); [by apply (Hno ua)|].
    destruct (Hlab _ Hin) as [Hne|(u & Hu & Heq)]; [by apply (Hne (component_id c))|].
    apply run_label_inj in Heq.
    rewrite fmap_app, fmap_cons in Hnd. apply NoDup_app in Hnd as (_ & Hnd & _).
    apply (Hnd (component_id u)); [by apply list_elem_of_fmap_2 | rewrite <- Heq; set_solver].
Qed.

(** *** [run] *)

Lemma deploy_eq args tp w :
  deploy args tp w
  = match schedule_all tp "CreateRoot" (components tp) loop_start (started w) with
    | (Return st, w') =>
        (Return {| runner_args := args;
                   submitted := Some {| argv := args; applied := transforms st |} |}, w')
    | (Raise e, w') => (Raise e, w')
    end.
Proof. reflexivity. Qed.

Lemma with_job_name_spec args tp w :
  ∃ args' w', with_job_name now timestamp args tp w = (Return args', w') ∧
    heap w' = heap w ∧ run_id w' = run_id w ∧ log w' = log w ∧
    launched w' = launched w.
Proof.
  unfold with_job_name. destruct (existsb _ _); by eexists _, _.
Qed.

Lemma run_eq args environ tp w :
  ∃ args' w', with_job_name now timestamp args tp w = (Return args', w') ∧
    heap w' = heap w ∧ run_id w' = run_id w ∧ log w' = log w ∧
    launched w' = launched w ∧
    run args environ tp w
    = if decide (export_variable ∈ dom environ)
      then (Return {| runner_args := args'; submitted := None |}, w')
      else deploy args' tp w'.
Proof.
  destruct (with_job_name_spec args tp w) as (args' & w' & Hj & ?).
  exists args', w'. repeat split; try tauto.
  unfold BeamDagRunner.run, mbind, M_bind. rewrite Hj. by destruct (decide _).
Qed.

Lemma loop_start_signals : signals_of [] (signal_map loop_start).
Proof. intros u. rewrite decide_False by set_solver. apply lookup_empty. Qed.

(** C1: in the loop of [run], which starts from an empty signal map and the
    root, let [c] be reached after the components [pre]. The signal map
    then holds the signals of the components of [pre] and no other. If
    an upstream node of [c] has no entry, the round raises the assertion
    error, nothing is scheduled for [c], and so ends the loop. If the
    round returns, every upstream node of [c] had an entry, and the
    execution unit of [c] is a [ParDo] on the root whose side inputs are
    the signals of the upstream nodes of [c], one for each and no other.
    When every upstream node of [c] is in [pre], as in a list in
    topological order, each has an entry. *)
Theorem scheduling_waits_for_upstream tp pre c post st1 w0 w1 :
  schedule_all tp "CreateRoot" pre loop_start w0 = (Return st1, w1) →
  (∀ u, signal_map st1 !! u = if decide (u ∈ pre) then Some (signal_of u) else None) ∧
  ((∃ u, u ∈ upstream_nodes c ∧ signal_map st1 !! u = None) →
     schedule tp "CreateRoot" st1 c w1 = (Raise not_topological, w1) ∧
     schedule_all tp "CreateRoot" (pre ++ c :: post) loop_start w0
     = (Raise not_topological, w1)) ∧
  (∀ st2 w2, schedule tp "CreateRoot" st1 c w1 = (Return st2, w2) →
     (∀ u, u ∈ upstream_nodes c → signal_map st1 !! u = Some (signal_of u)) ∧
     ∃ fn signals,
       Forall2 (λ u s, signal_map st1 !! u = Some s) (upstream_nodes c) signals ∧
       transforms st2 = transforms st1 ++
         [ParDo (run_label (component_id c)) fn "CreateRoot" signals] ∧
       launcher_component (_component_launcher fn) = c ∧
       signal_map st2 = <[c := signal_of c]> (signal_map st1)) ∧
  ((∀ u, u ∈ upstream_nodes c → u ∈ pre) →
     ∀ u, u ∈ upstream_nodes c → signal_map st1 !! u = Some (signal_of u)).
Proof.
  intros Hpre.
  destruct (schedule_all_returns tp "CreateRoot" pre [] _ _ _ _ loop_start_signals Hpre)
    as (Hsm & _). rewrite app_nil_l in Hsm.
  split; [exact Hsm|]. split; [|split].
  - intros Hmiss. pose proof (schedule_missing tp "CreateRoot" st1 c w1 Hmiss) as Hs.
    split; [done|]. rewrite schedule_all_app, Hpre.
    cbn [BeamDagRunner.schedule_all]. unfold mbind, M_bind. by rewrite Hs.
  - intros st2 w2 Hs.
    assert (Hspec := schedule_spec tp "CreateRoot" st1 c w1). unfold wp in Hspec.
    rewrite Hs in Hspec. destruct Hspec as (fn & signals & Hsig & -> & Hfn & _).
    assert (Hall := Hsig). rewrite (mapM_signals pre) in Hall by done.
    destruct (decide (Forall _ _)) as [Hup|]; [|done].
    split.
    + intros u Hu. rewrite Hsm, decide_True; [done|]. by eapply Forall_forall in Hup.
    + exists fn, signals. repeat split; [|done..]. by apply mapM_Some_1.
  - intros Hup u Hu. rewrite Hsm. by rewrite decide_True by auto.
Qed.

(** The graph is built when the list of components is in topological
    order, the component ids are distinct and the additional pipeline
    arguments are well formed: the root and the execution units of the
    components, in order. *)
Lemma run_submits args environ tp w ua :
  export_variable ∉ dom environ →
  topological (components tp) →
  NoDup (component_id <$> components tp) →
  args_ok w (additional_pipeline_args tp) ua →
  ∃ r w' units,
    run args environ tp w = (Return r, w') ∧
    submitted r = Some {| argv := runner_args r; applied := Create "CreateRoot" :: units |} ∧
    Forall2 (unit_of "CreateRoot") (components tp) units.
Proof.
  intros Hexp Htop Hnd Hok.
  destruct (run_eq args environ tp w) as (args' & w1 & _ & Hh & _ & _ & _ & ->).
  rewrite decide_False by done. rewrite deploy_eq.
  destruct (schedule_all_succeeds tp "CreateRoot" (components tp) [] loop_start
              (started w1) ua) as (st' & w' & Hrun).
  - apply loop_start_signals.
  - intros l Hl. left. intros id. cbn in Hl. apply list_elem_of_singleton in Hl as ->.
    done.
  - done.
  - done.
  - destruct Hok as (entries & He & Hua). exists entries. cbn. rewrite Hh.
    split; [done|]. destruct (entries !! beam_pipeline_args); by rewrite ?Hh.
  - rewrite Hrun.
    destruct (schedule_all_returns tp "CreateRoot" _ [] _ _ _ _ loop_start_signals Hrun)
      as (_ & (units & Htr & Hunits) & _).
    eexists _, w', units. split; [done|]. cbn. by rewrite Htr.
Qed.

(** C7: when the export variable is set, [run] returns without a graph
    for the engine, and leaves the heap, the run id, the log and the
    launches as they were: no execution unit was constructed, none was
    scheduled, and no launcher was called. *)
Theorem export_run_submits_nothing args environ tp w :
  export_variable ∈ dom environ →
  ∃ args' w',
    run args environ tp w = (Return {| runner_args := args'; submitted := None |}, w') ∧
    heap w' = heap w ∧ run_id w' = run_id w ∧ log w' = log w ∧
    launched w' = launched w.
Proof.
  intros Hexp.
  destruct (run_eq args environ tp w) as (args' & w' & _ & ? & ? & ? & ? & Hrun).
  rewrite decide_True in Hrun by done. by exists args', w'.
Qed.

(** C9, amended: when the export variable is not set, [run] reads the
    clock and assigns its ISO-8601 form to the run id, in a world [w1]
    from which the scheduling loop then starts with nothing scheduled;
    the run id is that timestamp whenever the loop reaches a component,
    and when [run] ends, normally or not. *)
Theorem run_assigns_run_id args environ tp w :
  export_variable ∉ dom environ →
  (∀ n, valid (now n)) →
  ∃ args' w1 d,
    valid d ∧ parse_iso8601 (isoformat d) = Some d ∧ is_iso8601 (isoformat d) = true ∧
    run_id w1 = Some (isoformat d) ∧ launched w1 = launched w ∧ log w1 = log w ∧
    transforms loop_start = [Create "CreateRoot"] ∧
    run args environ tp w
    = match schedule_all tp "CreateRoot" (components tp) loop_start w1 with
      | (Return st, w') =>
          (Return {| runner_args := args';
                     submitted := Some {| argv := args'; applied := transforms st |} |}, w')
      | (Raise e, w') => (Raise e, w')
      end ∧
    (∀ pre c post st' w', components tp = pre ++ c :: post →
       schedule_all tp "CreateRoot" pre loop_start w1 = (Return st', w') →
       run_id w' = Some (isoformat d)) ∧
    run_id (run args environ tp w).2 = Some (isoformat d).
Proof.
  intros Hexp Hvalid.
  destruct (run_eq args environ tp w) as (args' & w0 & _ & _ & _ & Hlog & Hl & Hrun).
  rewrite decide_False in Hrun by done. rewrite deploy_eq in Hrun.
  exists args', (started w0), (now (clock w0)).
  split; [done|]. split; [by apply parse_isoformat|].
  split; [by apply isoformat_is_iso8601|].
  repeat split; try done.
  - intros pre c post st' w' _ Hpre.
    destruct (schedule_all_returns tp "CreateRoot" pre [] _ _ _ _ loop_start_signals Hpre)
      as (_ & _ & _ & (_ & -> & _)). done.
  - rewrite Hrun.
    assert (Hk : ∀ cs st w, kept w (schedule_all tp "CreateRoot" cs st w).2).
    { induction cs as [|c0 cs IH]; intros st wa; [done|].
      cbn [BeamDagRunner.schedule_all]. unfold mbind, M_bind.
      assert (Hs := schedule_spec tp "CreateRoot" st c0 wa). unfold wp in Hs.
      destruct (schedule tp "CreateRoot" st c0 wa) as [[st1|e] wb].
      - destruct Hs as (? & ? & _ & _ & _ & _ & Hk). eapply kept_trans; [done|apply IH].
      - by destruct Hs. }
    specialize (Hk (components tp) loop_start (started w0)).
    destruct (schedule_all tp "CreateRoot" (components tp) loop_start (started w0))
      as [[st|e] w']; cbn [snd] in *; by destruct Hk as (_ & -> & _).
Qed.

End RunFacts.

(** ** The graph builder *)

Section BuildFacts.
Import GraphBuilder.

Variable node : node_ref → Node.

Local Abbreviation ident := (λ n, identity (node n)).
Local Abbreviation index_by_identity := (index_by_identity node).
Local Abbreviation upstream := (upstream node).
Local Abbreviation edge := (edge node).
Local Abbreviation extract := (extract node).
Local Abbreviation build := (build node).
Local Abbreviation first_upstream := (first_upstream node).

(** *** Deduplication *)

Lemma elem_of_dedup n (l : list node_ref) : n ∈ dedup l ↔ n ∈ l.
Proof.
  induction l as [|m l IH]; [done|]. cbn [dedup].
  rewrite !elem_of_cons, list_elem_of_filter, IH.
  destruct (decide (n = m)); naive_solver.
Qed.

Lemma NoDup_dedup l : NoDup (dedup l).
Proof.
  induction l as [|m l IH]; cbn [dedup]; constructor.
  - rewrite list_elem_of_filter. naive_solver.
  - by apply NoDup_filter.
Qed.

Lemma filter_ne_absent (n : node_ref) (l : list node_ref) :
  n ∉ l → filter (λ m, m ≠ n) l = l.
Proof.
  induction l as [|m l IH]; [done|]. intros Hn.
  rewrite filter_cons, decide_True by set_solver. rewrite IH; [done|set_solver].
Qed.

Lemma dedup_NoDup l : NoDup l → dedup l = l.
Proof.
  induction 1 as [|m l Hm _ IH]; [done|]. cbn [dedup].
  by rewrite IH, filter_ne_absent.
Qed.

Lemma dedup_idemp l : dedup (dedup l) = dedup l.
Proof. apply dedup_NoDup, NoDup_dedup. Qed.

(** *** Identities *)

Lemma NoDup_fmap_eq {A B} (f : A → B) (l : list A) x y :
  NoDup (f <$> l) → x ∈ l → y ∈ l → f x = f y → x = y.
Proof.
  induction l as [|z l IH]; [set_solver|].
  rewrite fmap_cons, NoDup_cons, !elem_of_cons, list_elem_of_fmap.
  intros [Hz Hnd] [->|Hx] [->|Hy] Hf; [done| | |by apply IH].
  - destruct Hz. eauto.
  - destruct Hz. eauto.
Qed.

Lemma index_by_identity_spec l : ∀ index,
  match index_by_identity l index with
  | inr _ => NoDup (ident <$> l) ∧ ∀ n, n ∈ l → index !! ident n = None
  | inl e =>
      ∃ l1 n l2, l = l1 ++ n :: l2 ∧ e = DuplicateNodeIdentity (ident n) ∧
        (is_Some (index !! ident n) ∨ ident n ∈ ident <$> l1)
  end.
Proof.
  induction l as [|n l IH]; intros index; cbn [GraphBuilder.index_by_identity].
  - split; [constructor | set_solver].
  - destruct (index !! ident n) as [m|] eqn:Hn.
    + exists [], n, l. rewrite Hn. eauto.
    + specialize (IH (<[ident n := n]> index)).
      destruct (GraphBuilder.index_by_identity node l _) as [e|index'].
      * destruct IH as (l1 & m & l2 & -> & -> & Hdup).
        exists (n :: l1), m, l2. repeat split.
        destruct (decide (ident n = ident m)) as [Heq|Hne].
        -- right. rewrite fmap_cons, <- Heq. set_solver.
        -- rewrite lookup_insert_ne in Hdup by done.
           destruct Hdup; [by left|right]. rewrite fmap_cons. set_solver.
      * destruct IH as [Hnd Hfresh]. split.
        -- rewrite fmap_cons. constructor; [|done].
           intros (m & Heq & Hm)%list_elem_of_fmap. specialize (Hfresh m Hm).
           cbn in Heq. rewrite <- Heq, lookup_insert_eq in Hfresh. done.
        -- intros m [->|Hm]%elem_of_cons; [done|]. specialize (Hfresh m Hm).
           apply lookup_insert_None in Hfresh. tauto.
Qed.

(** *** Extraction *)

Lemma extracted_split (n : node_ref) (l : list node_ref) :
  NoDup l → n ∈ l → l ≡ₚ n :: filter (λ m, m ≠ n) l.
Proof.
  intros Hnd Hn. apply NoDup_Permutation; [done| |].
  - constructor; [|by apply NoDup_filter]. rewrite list_elem_of_filter. naive_solver.
  - intros m. rewrite elem_of_cons, list_elem_of_filter.
    destruct (decide (m = n)); naive_solver.
Qed.

Lemma extract_Permutation rounds : ∀ remaining order,
  NoDup remaining → (length remaining ≤ rounds)%nat →
  extract rounds remaining = inr order → order ≡ₚ remaining.
Proof.
  induction rounds as [|rounds IH]; intros [|first rest] order Hnd Hlen;
    cbn [GraphBuilder.extract]; try (intros [= <-]; done).
  - cbn in Hlen. lia.
  - destruct (list_find _ _) as [[i n]|] eqn:Hfind; [|done].
    apply list_find_Some in Hfind as (Hi & _ & _).
    apply list_elem_of_lookup_2 in Hi.
    destruct (GraphBuilder.extract node rounds _) as [e|order'] eqn:Hrec; [done|].
    intros [= <-]. rewrite (extracted_split n (first :: rest)) by done.
    constructor. apply IH; [by apply NoDup_filter | | done].
    assert (Hlt : (length (filter (λ m, m ≠ n) (first :: rest))
                   < length (first :: rest))%nat).
    { apply (length_filter_lt _ _ n); [done | by intros ?]. }
    lia.
Qed.

Lemma build_eq nodes :
  build nodes
  = match index_by_identity (dedup nodes) ∅ with
    | inl e => inl e
    | inr _ => extract (length (dedup nodes)) (dedup nodes)
    end.
Proof. reflexivity. Qed.

(** A list that comes out of [build] has the nodes that went in, each
    once, under distinct identities. *)
Lemma build_returns nodes order :
  build nodes = inr order →
  order ≡ₚ dedup nodes ∧ NoDup order ∧ NoDup (ident <$> order) ∧
  ∀ n, n ∈ order ↔ n ∈ nodes.
Proof.
  rewrite build_eq. intros Hb.
  assert (Hidx := index_by_identity_spec (dedup nodes) ∅).
  destruct (index_by_identity (dedup nodes) ∅) as [e|index]; [done|].
  destruct Hidx as [Hids _].
  apply extract_Permutation in Hb; [|apply NoDup_dedup | done].
  split; [done|]. split; [by rewrite Hb; apply NoDup_dedup|].
  split; [by rewrite Hb|]. intros n. by rewrite Hb, elem_of_dedup.
Qed.

(** C4: when two distinct nodes of the collection have the same identity,
    [build] fails with [DuplicateNodeIdentity], naming an identity that
    two distinct nodes of the collection have. *)
Theorem duplicate_identity_rejected nodes n1 n2 :
  n1 ∈ nodes → n2 ∈ nodes → n1 ≠ n2 →
  identity (node n1) = identity (node n2) →
  ∃ id, build nodes = inl (DuplicateNodeIdentity id) ∧
    ∃ m1 m2, m1 ∈ nodes ∧ m2 ∈ nodes ∧ m1 ≠ m2 ∧
      identity (node m1) = id ∧ identity (node m2) = id.
Proof.
  intros H1 H2 Hne Hid. rewrite build_eq.
  assert (Hidx := index_by_identity_spec (dedup nodes) ∅).
  destruct (index_by_identity (dedup nodes) ∅) as [e|index].
  - destruct Hidx as (l1 & n & l2 & Hl & -> & [[? Hin]|Hin]).
    { by rewrite lookup_empty in Hin. }
    exists (ident n). split; [done|].
    apply list_elem_of_fmap in Hin as (m & Hm & Hml).
    assert (Hnd := NoDup_dedup nodes). rewrite Hl in Hnd.
    exists m, n. split; [|split; [|split; [|by split]]].
    + apply elem_of_dedup. rewrite Hl. set_solver.
    + apply elem_of_dedup. rewrite Hl. set_solver.
    + intros ->. apply NoDup_app in Hnd as (_ & Hnd & _).
      apply (Hnd n Hml). set_solver.
  - destruct Hidx as [Hnd _]. destruct Hne.
    apply (NoDup_fmap_eq ident (dedup nodes)); by rewrite ?elem_of_dedup.
Qed.

(** C8: [build] gives for a collection what it gives for the collection
    without its repeated references; and the list it returns has exactly
    the nodes of the collection, each once, under distinct identities. *)
Theorem build_ignores_repeated_references nodes :
  build nodes = build (dedup nodes) ∧
  ∀ order, build nodes = inr order →
    NoDup order ∧ NoDup ((λ n, identity (node n)) <$> order) ∧
    (∀ n, n ∈ order ↔ n ∈ nodes) ∧ order ≡ₚ dedup nodes.
Proof.
  split.
  - by rewrite (build_eq (dedup nodes)), dedup_idemp.
  - intros order Hb. apply build_returns in Hb. tauto.
Qed.

(** *** Cycles *)

Lemma edge_mono among among' p n :
  (∀ m, m ∈ among → m ∈ among') → edge among p n → edge among' p n.
Proof.
  unfold GraphBuilder.edge, GraphBuilder.upstream. rewrite !list_elem_of_filter.
  naive_solver.
Qed.

Lemma tc_edge_mono among among' n m :
  (∀ m, m ∈ among → m ∈ among') → tc (edge among) n m → tc (edge among') n m.
Proof.
  intros Hsub. induction 1 as [n m H|n m k H _ IH].
  - apply tc_once. by eapply edge_mono.
  - eapply tc_l; [by eapply edge_mono | done].
Qed.

Lemma walk_back_step among k n :
  walk_back node (S k) among n = walk_back node k among (first_upstream among n).
Proof.
  cbn [walk_back]. unfold GraphBuilder.first_upstream.
  destruct (upstream among n) as [|p ups] eqn:Hup; [|done].
  destruct k; cbn [walk_back]; [done|]. by rewrite Hup.
Qed.

Lemma walk_back_iter among k : ∀ n,
  walk_back node k among n = Nat.iter k (first_upstream among) n.
Proof.
  induction k as [|k IH]; intros n; [done|].
  by rewrite walk_back_step, Nat.iter_succ_r, IH.
Qed.

Section Stuck.
(** No node of [among] is without an upstream node in [among]. *)
Variable among : list node_ref.
Hypothesis stuck : ∀ n, n ∈ among → upstream among n ≠ [].

Lemma first_upstream_edge n :
  n ∈ among → first_upstream among n ∈ among ∧ edge among (first_upstream among n) n.
Proof.
  intros Hn. unfold GraphBuilder.first_upstream, GraphBuilder.edge.
  destruct (upstream among n) as [|p ups] eqn:Hup; [by destruct (stuck n Hn)|].
  assert (Hp : p ∈ upstream among n) by (rewrite Hup; set_solver).
  split; [|split; [done | set_solver]].
  unfold GraphBuilder.upstream in Hp. apply list_elem_of_filter in Hp. tauto.
Qed.

Lemma iter_among k n : n ∈ among → Nat.iter k (first_upstream among) n ∈ among.
Proof.
  intros Hn. induction k as [|k IH]; [done|]. rewrite Nat.iter_succ.
  exact (proj1 (first_upstream_edge _ IH)).
Qed.

Lemma iter_reaches k n :
  n ∈ among → tc (edge among) (Nat.iter (S k) (first_upstream among) n) n.
Proof.
  intros Hn. induction k as [|k IH].
  - apply tc_once. exact (proj2 (first_upstream_edge _ Hn)).
  - eapply tc_l; [|exact IH]. rewrite (Nat.iter_succ (S k)).
    exact (proj2 (first_upstream_edge _ (iter_among (S k) n Hn))).
Qed.

Lemma repeated_lookup (xs : list node_ref) :
  ¬ NoDup xs → ∃ i j x, (i < j)%nat ∧ xs !! i = Some x ∧ xs !! j = Some x.
Proof.
  induction xs as [|x xs IH]; intros Hnd; [destruct Hnd; constructor|].
  destruct (decide (x ∈ xs)) as [Hx|Hx].
  - apply list_elem_of_lookup in Hx as [j Hj]. exists 0, (S j), x.
    split; [lia|done].
  - destruct IH as (i & j & y & Hij & Hi & Hj).
    { intros Hxs. apply Hnd. by constructor. }
    exists (S i), (S j), y. split; [lia|done].
Qed.

(** After as many steps backwards as there are nodes, the walk is on a
    cycle. *)
Lemma walk_back_on_cycle n :
  n ∈ among →
  let x := walk_back node (length among) among n in
  x ∈ among ∧ tc (edge among) x x.
Proof.
  intros Hn x. subst x. rewrite walk_back_iter.
  set (f := first_upstream among). set (N := length among).
  split; [by apply iter_among|].
  set (xs := (λ k, Nat.iter k f n) <$> seq 0 (S N)).
  assert (Hlook : ∀ i y, xs !! i = Some y → (i ≤ N)%nat ∧ y = Nat.iter i f n).
  { intros i y. unfold xs. rewrite list_lookup_fmap.
    destruct (seq 0 (S N) !! i) as [k|] eqn:Hk; [|done].
    apply lookup_seq in Hk as [-> ?]. intros [= <-]. split; [lia|done]. }
  destruct (repeated_lookup xs) as (i & j & y & Hij & Hi & Hj).
  { intros Hnd. apply NoDup_submseteq with (k := among) in Hnd.
    - apply submseteq_length in Hnd. unfold xs in Hnd.
      rewrite length_fmap, length_seq in Hnd. fold N in Hnd. lia.
    - intros z (k & -> & _)%list_elem_of_fmap. by apply iter_among. }
  apply Hlook in Hi as [HiN Hyi]. apply Hlook in Hj as [HjN Hyj].
  assert (Hloop : Nat.iter N f n = Nat.iter (S (j - i - 1)) f (Nat.iter N f n)).
  { rewrite <- Nat.iter_add.
    replace (S (j - i - 1) + N) with ((N - i) + j) by lia.
    rewrite Nat.iter_add, <- Hyj, Hyi, <- Nat.iter_add. f_equal. lia. }
  rewrite Hloop at 1. by apply iter_reaches, iter_among.
Qed.
End Stuck.

(** A set of nodes, each with an upstream node in the set, is never
    extracted: the rounds end with [CycleDetected]. *)
Lemma extract_stuck rounds : ∀ remaining (S : list node_ref) s,
  s ∈ S →
  (∀ n, n ∈ S → n ∈ remaining ∧ ∃ p, p ∈ S ∧ p ∈ producers node n) →
  (length remaining ≤ rounds)%nat →
  ∃ n, extract rounds remaining = inl (CycleDetected n) ∧
       n ∈ remaining ∧ tc (edge remaining) n n.
Proof.
  induction rounds as [|rounds IH]; intros [|first rest] S s Hs Hclosed Hlen;
    cbn [GraphBuilder.extract].
  1,3: destruct (Hclosed s Hs) as [Hin _]; set_solver.
  { cbn in Hlen. lia. }
  set (remaining := first :: rest) in *.
  destruct (list_find _ remaining) as [[i n]|] eqn:Hfind.
  - apply list_find_Some in Hfind as (Hi & Hzero & _).
    apply list_elem_of_lookup_2 in Hi.
    assert (Hn : n ∉ S).
    { intros HnS. destruct (Hclosed n HnS) as (_ & p & Hp & Hprod).
      assert (p ∈ upstream remaining n); [|rewrite Hzero in *; set_solver].
      apply list_elem_of_filter. split; [|done]. by apply Hclosed. }
    destruct (IH (filter (λ m, m ≠ n) remaining) S s Hs) as (c & -> & Hc & Hcycle).
    + intros m Hm. destruct (Hclosed m Hm) as [Hin Hp]. split; [|done].
      apply list_elem_of_filter. split; [|done]. by intros ->.
    + assert (Hlt : (length (filter (λ m, m ≠ n) remaining) < length remaining)%nat).
      { apply (length_filter_lt _ _ n); [done | by intros ?]. }
      lia.
    + exists c. split; [done|]. apply list_elem_of_filter in Hc as [_ Hc].
      split; [done|]. eapply tc_edge_mono; [|done].
      intros m. rewrite list_elem_of_filter. tauto.
  - apply list_find_None in Hfind.
    destruct (walk_back_on_cycle remaining) with (n := first) as [Hin Hcycle].
    + intros n Hn. by eapply Forall_forall in Hfind.
    + set_solver.
    + eauto.
Qed.

Lemma chain_upstream among via : ∀ a b,
  chain node among a via b →
  ∀ n, n ∈ via ++ [b] → ∃ p, p ∈ a :: via ∧ edge among p n.
Proof.
  induction via as [|m via IH]; intros a b; cbn [chain app].
  - intros He n ->%list_elem_of_singleton. exists a. split; [set_solver | done].
  - intros [He Hch] n [->|Hn]%elem_of_cons.
    + exists a. split; [set_solver | done].
    + destruct (IH m b Hch n Hn) as (p & Hp & Hpn). exists p. split; [set_solver | done].
Qed.

Lemma cycle_closed among ns n :
  cycle node among ns → n ∈ ns →
  n ∈ among ∧ ∃ p, p ∈ ns ∧ p ∈ producers node n.
Proof.
  destruct ns as [|x rest]; [done|]. intros [_ Hch] Hn.
  destruct (chain_upstream among rest x x Hch n) as (p & Hp & He & Hup);
    [set_solver|].
  split; [done|]. exists p. split; [done|].
  unfold GraphBuilder.upstream in Hup. apply list_elem_of_filter in Hup. tauto.
Qed.

(** C3, amended: on a collection of nodes with a dependency cycle of
    length at least 2, [build] fails. When the identities of the nodes are
    distinct it fails with [CycleDetected], naming a node of the
    collection that lies on a dependency cycle; when they are not, it
    fails with [DuplicateNodeIdentity]. *)
Theorem cycle_rejected nodes ns :
  cycle node nodes ns → (2 ≤ length ns)%nat →
  (∃ e, build nodes = inl e) ∧
  (NoDup ((λ n, identity (node n)) <$> dedup nodes) →
     ∃ n, build nodes = inl (CycleDetected n) ∧ n ∈ nodes ∧ tc (edge nodes) n n) ∧
  (¬ NoDup ((λ n, identity (node n)) <$> dedup nodes) →
     ∃ id, build nodes = inl (DuplicateNodeIdentity id)).
Proof.
  intros Hcycle Hlen. rewrite build_eq.
  assert (Hidx := index_by_identity_spec (dedup nodes) ∅).
  assert (Hstuck : ∃ n, extract (length (dedup nodes)) (dedup nodes)
                        = inl (CycleDetected n) ∧ n ∈ nodes ∧ tc (edge nodes) n n).
  { destruct ns as [|x rest] eqn:Hns; [done|]. rewrite <- Hns in *.
    destruct (extract_stuck (length (dedup nodes)) (dedup nodes) ns x)
      as (n & He & Hn & Htc); [set_solver| |done|].
    - intros m Hm. destruct (cycle_closed nodes ns m Hcycle Hm) as [Hin Hp].
      by rewrite elem_of_dedup.
    - exists n. split; [done|]. rewrite elem_of_dedup in Hn. split; [done|].
      eapply tc_edge_mono; [|done]. intros m. by rewrite elem_of_dedup. }
  destruct Hstuck as (n & He & Hn & Htc).
  destruct (index_by_identity (dedup nodes) ∅) as [e|index].
  - destruct Hidx as (l1 & m & l2 & Hl & -> & [[? Hin]|Hin]).
    { by rewrite lookup_empty in Hin. }
    split; [eauto|]. split; [|eauto].
    intros Hnd. rewrite Hl, fmap_app, fmap_cons in Hnd.
    apply NoDup_app in Hnd as (_ & Hnd & _). destruct (Hnd _ Hin). set_solver.
  - destruct Hidx as [Hnd _]. split; [eauto|]. split; [eauto|]. done.
Qed.

End BuildFacts.

(** ** The properties on the pipelines of the tests *)

Section OnTheTests.
Import PyStr JobName DateTime Py BeamDagRunner GraphBuilder Examples.

(** Decides a closed proposition by evaluation. *)
Ltac by_eval := refine (bool_decide_unpack _ _); vm_compute; exact I.

Local Abbreviation test_schedule_all :=
  (schedule_all test_component_id test_upstream_nodes test_now test_timestamp).
Local Abbreviation test_run :=
  (run test_component_id test_upstream_nodes test_now test_timestamp).
Local Abbreviation test_init :=
  (ComponentAsDoFn_init test_component_id test_now test_timestamp).

(** [scheduling_waits_for_upstream] where the loop reaches [d] after [a],
    [c] and [b]. *)
Lemma scheduling_waits_for_upstream_witness :
  ∃ st1 w1,
    test_schedule_all test_pipeline "CreateRoot" [1; 3; 2] loop_start test_world
    = (Return st1, w1) ∧
    (∀ u, signal_map st1 !! u
          = if decide (u ∈ [1; 3; 2]) then Some (signal_of test_component_id u)
            else None) ∧
    (∀ u, u ∈ test_upstream_nodes 4 →
          signal_map st1 !! u = Some (signal_of test_component_id u)).
Proof.
  pose (r := test_schedule_all test_pipeline "CreateRoot" [1; 3; 2] loop_start test_world).
  pose (st1 := match r.1 with Return st => st | Raise _ => loop_start end).
  pose (w1 := r.2).
  assert (Hr : test_schedule_all test_pipeline "CreateRoot" [1; 3; 2] loop_start test_world
               = (Return st1, w1)) by (vm_compute; reflexivity).
  exists st1, w1. split; [exact Hr|].
  destruct (scheduling_waits_for_upstream test_component_id test_upstream_nodes
              test_now test_timestamp test_pipeline [1; 3; 2] 4 [5] st1 test_world w1 Hr)
    as (Hmap & _ & _ & Hup).
  split; [exact Hmap|]. apply Hup.
  intros u Hu. change (test_upstream_nodes 4) with [2; 3] in Hu.
  apply elem_of_cons in Hu as [->|Hu]; [by_eval|].
  apply list_elem_of_singleton in Hu as ->. by_eval.
Defined.

(** [process_checks_signals] on the unit of [a], with a launcher that
    reads the clock: with an element in a signal the clock is not read;
    with empty signals it is read once, between the two lines of the
    log; and a launcher that fails makes the invocation fail. *)
Lemma process_checks_signals_witness :
  process ticking_launch test_dofn () [[]; [()]] test_world
  = (Raise (AssertionError "Signal PCollection should be empty."), test_world) ∧
  process ticking_launch test_dofn () [[]; []] test_world
  = (Return (),
     set_log [LogRunning "component_a"; LogFinished "component_a"]
       (set_launched [1%nat] (set_clock 1 test_world))) ∧
  process failing_launch test_dofn () [[]; []] test_world
  = (Raise (RuntimeError "The executor failed."),
     set_launched [1%nat] (set_log [LogRunning "component_a"] test_world)).
Proof.
  assert (Hs : Forall (λ s : list (), s = []) [[]; []]) by (repeat constructor).
  split; [|split].
  - apply (process_checks_signals ticking_launch test_dofn () [[]; [()]] test_world).
    apply Exists_cons_tl, Exists_cons_hd. discriminate.
  - exact (proj2 (proj2 (proj2 (process_checks_signals ticking_launch test_dofn ()
                                  [[]; []] test_world) Hs))).
  - exact (proj2 (proj2 (proj2 (process_checks_signals failing_launch test_dofn ()
                                  [[]; []] test_world) Hs))).
Defined.

(** C3 as stated fails on the collection of [testPipelineWithLoop]: it
    has the cycle 2, 3, 4 and [build] fails with [DuplicateNodeIdentity],
    not with [CycleDetected]. *)
Lemma loop_of_the_test_not_cycle_detected :
  cycle loop_node loop_nodes [2; 3; 4] ∧ (2 ≤ length [2; 3; 4])%nat ∧
  build loop_node loop_nodes = inl (DuplicateNodeIdentity "component_b") ∧
  ¬ ∃ n, build loop_node loop_nodes = inl (CycleDetected n).
Proof.
  split; [|split; [|split]].
  - cbn [cycle chain]. unfold edge. repeat split; by_eval.
  - cbn. lia.
  - vm_compute. reflexivity.
  - intros [n Hn]. vm_compute in Hn. discriminate.
Qed.

(** [cycle_rejected] on the same loop under distinct names. *)
Lemma cycle_rejected_witness :
  cycle named_loop_node loop_nodes [2; 3; 4] ∧ (2 ≤ length [2; 3; 4])%nat ∧
  NoDup ((λ n, identity (named_loop_node n)) <$> dedup loop_nodes) ∧
  ∃ n, build named_loop_node loop_nodes = inl (CycleDetected n) ∧
       n ∈ loop_nodes ∧ tc (edge named_loop_node loop_nodes) n n.
Proof.
  assert (Hc : cycle named_loop_node loop_nodes [2; 3; 4]).
  { cbn [cycle chain]. unfold edge. repeat split; by_eval. }
  assert (Hl : (2 ≤ length [2; 3; 4])%nat) by (cbn; lia).
  assert (Hn : NoDup ((λ n, identity (named_loop_node n)) <$> dedup loop_nodes))
    by by_eval.
  split; [exact Hc|]. split; [exact Hl|]. split; [exact Hn|].
  apply (cycle_rejected named_loop_node loop_nodes [2; 3; 4] Hc Hl), Hn.
Defined.

(** [duplicate_identity_rejected] on the collection of
    [testPipelineWithDuplicatedComponentId]. *)
Lemma duplicate_identity_rejected_witness :
  3 ∈ [3; 2; 1] ∧ 2 ∈ [3; 2; 1] ∧ 3 ≠ 2 ∧
  identity (duplicated_node 3) = identity (duplicated_node 2) ∧
  ∃ id, build duplicated_node [3; 2; 1] = inl (DuplicateNodeIdentity id) ∧
    ∃ m1 m2, m1 ∈ [3; 2; 1] ∧ m2 ∈ [3; 2; 1] ∧ m1 ≠ m2 ∧
      identity (duplicated_node m1) = id ∧ identity (duplicated_node m2) = id.
Proof.
  assert (H3 : 3 ∈ [3; 2; 1]) by by_eval.
  assert (H2 : 2 ∈ [3; 2; 1]) by by_eval.
  assert (Hne : 3 ≠ 2) by lia.
  repeat (split; [done|]).
  exact (duplicate_identity_rejected duplicated_node [3; 2; 1] 3 2 H3 H2 Hne eq_refl).
Defined.

(** [job_name_pattern] on a pipeline name and a component id with
    characters outside the class. *)
Lemma job_name_pattern_witness :
  component_job_name "My Pipeline!" "Trainer.v2" 1700000000
  = "my-pipeline--trainer-v2-1700000000" ∧
  Forall (λ ch, job_name_char ch)
    (chars (component_job_name "My Pipeline!" "Trainer.v2" 1700000000)) ∧
  re_sub ("a" +:+ " !" +:+ "b") = "a" +:+ "-" +:+ re_sub "b".
Proof.
  destruct job_name_pattern as (Hc & _ & Hrun & _).
  destruct (Hc "My Pipeline!" "Trainer.v2" 1700000000%Z) as [Heq Hchars].
  split; [rewrite Heq; vm_compute; reflexivity|]. split; [exact Hchars|].
  apply (Hrun "a" " "%char "!" "b").
  - repeat constructor.
  - repeat constructor; vm_compute; exact id.
  - vm_compute. exact I.
Defined.

(** [dofn_single_job_name] when the user gave two job names of their
    own. *)
Lemma dofn_single_job_name_witness :
  let user_args := ["--runner=PortableRunner"; "--job_name=mine"; "--job_name_too"] in
  args_ok (world_with user_args) (additional_pipeline_args test_pipeline) user_args ∧
  ∃ fn w' effective,
    test_init 1 test_pipeline (world_with user_args) = (Return fn, w') ∧
    launcher_additional_pipeline_args (_component_launcher fn)
    = _additional_pipeline_args fn ∧
    list_at w' (_additional_pipeline_args fn) beam_pipeline_args = Some effective ∧
    let derived :=
      job_name_flag (component_job_name (pipeline_name test_pipeline)
                       (test_component_id 1)
                       (test_timestamp (test_now (clock (world_with user_args))))) in
    effective = filter (λ arg, ¬ startswith job_name_prefix arg) user_args ++ [derived] ∧
    filter (λ arg, startswith job_name_prefix arg) effective = [derived].
Proof.
  intros user_args.
  assert (Hok : args_ok (world_with user_args)
                  (additional_pipeline_args test_pipeline) user_args).
  { exists (<[beam_pipeline_args := 2]> ∅). split; vm_compute; reflexivity. }
  split; [exact Hok|].
  exact (dofn_single_job_name test_component_id test_now test_timestamp 1
           test_pipeline (world_with user_args) user_args Hok).
Defined.

(** [export_run_submits_nothing] on the pipeline of [testRun]. *)
Lemma export_run_submits_nothing_witness :
  export_variable ∈ dom export_environ ∧
  ∃ args' w',
    test_run [] export_environ test_pipeline test_world
    = (Return {| runner_args := args'; submitted := None |}, w') ∧
    heap w' = heap test_world ∧ run_id w' = run_id test_world ∧
    log w' = log test_world ∧ launched w' = launched test_world.
Proof.
  assert (He : export_variable ∈ dom export_environ) by by_eval.
  split; [exact He|].
  exact (export_run_submits_nothing test_component_id test_upstream_nodes test_now
           test_timestamp [] export_environ test_pipeline test_world He).
Defined.

(** [build_ignores_repeated_references] on the collection of
    [testPipeline], in which [a] comes twice. *)
Lemma build_ignores_repeated_references_witness :
  build test_node test_nodes = inr [1; 3; 2; 4; 5] ∧
  build test_node (dedup test_nodes) = inr [1; 3; 2; 4; 5] ∧
  NoDup [1; 3; 2; 4; 5] ∧
  NoDup ((λ n, identity (test_node n)) <$> [1; 3; 2; 4; 5]) ∧
  (∀ n, n ∈ [1; 3; 2; 4; 5] ↔ n ∈ test_nodes) ∧
  [1; 3; 2; 4; 5] ≡ₚ dedup test_nodes.
Proof.
  destruct (build_ignores_repeated_references test_node test_nodes) as [Heq Hret].
  assert (Hb : build test_node test_nodes = inr [1; 3; 2; 4; 5])
    by (vm_compute; reflexivity).
  split; [exact Hb|]. split; [by rewrite <- Heq|].
  exact (Hret [1; 3; 2; 4; 5] Hb).
Defined.

(** C9 as stated fails when the export variable is set: [run] returns,
    and the pipeline has no run id. *)
Lemma export_run_assigns_no_run_id :
  (test_run [] export_environ test_pipeline test_world).1
  = Return {| runner_args := ["--job_name=x-1700000000"]; submitted := None |} ∧
  run_id (test_run [] export_environ test_pipeline test_world).2 = None.
Proof. split; vm_compute; reflexivity. Qed.

(** [run_assigns_run_id] on the pipeline of [testRun]. *)
Lemma run_assigns_run_id_witness :
  (export_variable ∉ dom (∅ : gmap string string)) ∧
  (∀ n, valid (test_now n)) ∧
  run_id (test_run [] ∅ test_pipeline test_world).2 = Some "2023-11-14T22:13:20" ∧
  is_iso8601 "2023-11-14T22:13:20" = true.
Proof.
  assert (He : export_variable ∉ dom (∅ : gmap string string)) by by_eval.
  assert (Hv : ∀ n, valid (test_now n)) by (intros n; vm_compute; exact I).
  split; [exact He|]. split; [exact Hv|].
  destruct (run_assigns_run_id test_component_id test_upstream_nodes test_now
              test_timestamp [] ∅ test_pipeline test_world He Hv)
    as (args' & w1 & d & _ & _ & _ & _ & _ & _ & _ & _ & _ & Hid).
  split; [|vm_compute; reflexivity].
  vm_compute. reflexivity.
Defined.

(** [dofn_init_frame] on a pipeline whose Beam arguments hold a job name
    of the user's: the list is the same after the constructor ran. *)
Lemma dofn_init_frame_witness :
  let w := world_with ["--runner=PortableRunner"; "--job_name=mine"] in
  let w' := (test_init 1 test_pipeline w).2 in
  list_at w (additional_pipeline_args test_pipeline) beam_pipeline_args
  = Some ["--runner=PortableRunner"; "--job_name=mine"] ∧
  list_at w' (additional_pipeline_args test_pipeline) beam_pipeline_args
  = Some ["--runner=PortableRunner"; "--job_name=mine"] ∧
  run_id w' = run_id w.
Proof.
  intros w w'.
  assert (Hw : list_at w (additional_pipeline_args test_pipeline) beam_pipeline_args
               = Some ["--runner=PortableRunner"; "--job_name=mine"])
    by (vm_compute; reflexivity).
  destruct (dofn_init_frame test_component_id test_now test_timestamp 1
              test_pipeline w) as (_ & _ & _ & Hlist & Hrun).
  split; [exact Hw|]. split; [exact (Hlist _ Hw) | exact Hrun].
Defined.

End OnTheTests.

(** * Further properties of the runner *)

(** ** Job names and run ids *)

Section NameFacts.
Import PyStr JobName DateTime.

Lemma lower_no_upper_fixed s :
  Forall (λ c, is_upper c = false) (chars s) → lower s = s.
Proof.
  induction s as [|c s IH]; simpl; [done|].
  intros [Hc Hs]%Forall_cons. by rewrite IH, lower_char_fixed.
Qed.

Lemma job_name_char_clean c : job_name_char c → is_upper c = false ∧ in_class c.
Proof.
  destruct c as [[] [] [] [] [] [] [] []]; vm_compute; tauto.
Qed.

Lemma clean_sanitized s :
  Forall (λ c, job_name_char c) (chars s) → re_sub (lower s) = s.
Proof.
  intros Hs. rewrite lower_no_upper_fixed.
  - apply re_sub_fixed. eapply Forall_impl; [done|]. intros c Hc.
    by apply job_name_char_clean.
  - eapply Forall_impl; [done|]. intros c Hc. by apply job_name_char_clean.
Qed.

(** X10: when the pipeline name and the component id consist of digits,
    lower-case letters and dashes, the job name of the component is the
    two and the timestamp joined by dashes, nothing replaced. *)
Theorem clean_names_job_name p c ts :
  Forall (λ ch, job_name_char ch) (chars p) →
  Forall (λ ch, job_name_char ch) (chars c) →
  component_job_name p c ts = p +:+ "-" +:+ c +:+ "-" +:+ format_int ts ∧
  orchestrator_job_name p ts = p +:+ "-" +:+ format_int ts.
Proof.
  intros Hp Hc.
  by rewrite component_job_name_parts, orchestrator_job_name_parts, !clean_sanitized.
Qed.

(** X11: sanitizing is idempotent: the job name built from an already
    sanitized pipeline name and component id is the job name built from
    the original ones. *)
Theorem job_name_of_sanitized_names p c ts :
  re_sub (lower (re_sub (lower p))) = re_sub (lower p) ∧
  component_job_name (re_sub (lower p)) (re_sub (lower c)) ts
  = component_job_name p c ts ∧
  re_sub (lower (component_job_name p c ts)) = component_job_name p c ts.
Proof.
  assert (Hid : ∀ s, re_sub (lower (re_sub (lower s))) = re_sub (lower s)).
  { intros s. apply clean_sanitized, sanitized_lower_chars. }
  split; [apply Hid|]. split.
  - by rewrite !component_job_name_parts, !Hid.
  - apply clean_sanitized. unfold component_job_name. apply sanitized_lower_chars.
Qed.

Lemma append_cancel_l a b c : a +:+ b = a +:+ c → b = c.
Proof.
  induction a as [|x a IH]; [done|]. intros H. apply IH.
  change (String x (a +:+ b) = String x (a +:+ c)) in H. by injection H.
Qed.

Lemma format_int_inj a b : format_int a = format_int b → a = b.
Proof.
  assert (Hparse : ∀ z, NilZero.int_of_string (format_int z) = Some (Z.to_int z)).
  { intros z. unfold format_int. apply NilZero.isi.
    - destruct z as [|q|q]; cbn; try discriminate.
      intros [= Hq]. by apply (DecimalPos.Unsigned.to_uint_nonnil q).
    - destruct z as [|q|q]; cbn; try discriminate.
      intros [= Hq]. by apply (DecimalPos.Unsigned.to_uint_nonnil q). }
  intros H. assert (Hz : Some (Z.to_int a) = Some (Z.to_int b))
    by by rewrite <- !Hparse, H.
  injection Hz as Hz. by rewrite <- (DecimalZ.of_to a), <- (DecimalZ.of_to b), Hz.
Qed.

(** X12: the timestamp tells the job names of one component apart: two job
    names of the same pipeline and component are equal only when the
    timestamps are. *)
Theorem job_name_timestamp_injective p c ts1 ts2 :
  component_job_name p c ts1 = component_job_name p c ts2 → ts1 = ts2.
Proof.
  rewrite !component_job_name_parts. intros H.
  apply append_cancel_l in H. apply append_cancel_l in H.
  apply append_cancel_l in H. apply append_cancel_l in H.
  by apply format_int_inj.
Qed.

(** X13: [isoformat] tells valid datetimes apart, so runs that start at
    different readings of the clock get different run ids. *)
Theorem isoformat_injective d1 d2 :
  valid d1 → valid d2 → isoformat d1 = isoformat d2 → d1 = d2.
Proof.
  intros H1 H2 Heq. apply parse_isoformat in H1, H2.
  rewrite Heq in H1. congruence.
Qed.

End NameFacts.

(** ** The execution unit, further *)

Section DoFnMore.
Import PyStr JobName DateTime Py BeamDagRunner.

Variable component_id : component → string.
Variable now : nat → datetime.
Variable timestamp : datetime → Z.
Variable launch : launcher → M unit.

Local Abbreviation init := (ComponentAsDoFn_init component_id now timestamp).

(** The dict the constructor leaves in the unit. *)
Lemma init_entries c tp w :
  wp (init c tp)
     (λ fn w', ∀ entries,
        heap w !! additional_pipeline_args tp = Some (PyDict entries) →
        ∃ l items,
          heap w' !! _additional_pipeline_args fn
          = Some (PyDict (<[beam_pipeline_args := l]> entries)) ∧
          heap w' !! l = Some (PyList items) ∧
          heap w !! l = None ∧ heap w !! _additional_pipeline_args fn = None)
     (λ _ _, True) w.
Proof.
  unfold ComponentAsDoFn_init, dict_copy, dict_setdefault, dict_setitem,
    dict_getitem, list_append.
  apply wp_bind, wp_bind, wp_read_dict.
  destruct (heap w !! additional_pipeline_args tp) as [[items|entries]|] eqn:HA;
    [done| |done].
  apply wp_alloc. intros a Ha.
  apply wp_bind. unfold wp at 1, datetime_now.
  apply wp_bind, wp_alloc. intros df Hdf. wsimpl in Hdf.
  apply wp_bind, wp_bind, wp_read_dict. wsimpl.
  assert (Hne : a ≠ df) by (intros ->; by rewrite lookup_insert_eq in Hdf).
  rewrite lookup_insert_ne in Hdf by done.
  rewrite lookup_insert_ne, lookup_insert_eq by done.
  destruct (entries !! beam_pipeline_args) as [v|] eqn:Hv.
  - apply wp_ret, wp_bind, wp_read_list. wsimpl.
    destruct (<[df:=PyList []]> (<[a:=PyDict entries]> (heap w)) !! v)
      as [[items|?]|] eqn:Hitems; [|done..].
    apply wp_bind, wp_alloc. intros kept Hkept. wsimpl in Hkept.
    assert (kept ≠ df) by (intros ->; by rewrite lookup_insert_eq in Hkept).
    rewrite lookup_insert_ne in Hkept by done.
    assert (kept ≠ a) by (intros ->; by rewrite lookup_insert_eq in Hkept).
    rewrite lookup_insert_ne in Hkept by done.
    apply wp_bind, wp_bind, wp_read_dict. wsimpl.
    rewrite !lookup_insert_ne, lookup_insert_eq by done.
    apply wp_store. wsimpl.
    apply wp_bind, wp_bind, wp_read_dict. wsimpl.
    rewrite lookup_insert_eq, lookup_insert_eq.
    apply wp_ret, wp_bind, wp_bind, wp_read_list. wsimpl.
    rewrite lookup_insert_ne, lookup_insert_eq by done.
    apply wp_store, wp_ret. wsimpl.
    intros ? [= <-]. eexists kept, _. rewrite lookup_insert_eq.
    by rewrite lookup_insert_ne, lookup_insert_eq by done.
  - apply wp_bind, wp_store, wp_ret, wp_bind, wp_read_list. wsimpl.
    rewrite lookup_insert_ne, lookup_insert_eq by done.
    apply wp_bind, wp_alloc. intros kept Hkept. wsimpl in Hkept.
    assert (kept ≠ a) by (intros ->; by rewrite lookup_insert_eq in Hkept).
    rewrite lookup_insert_ne in Hkept by done.
    assert (kept ≠ df) by (intros ->; by rewrite lookup_insert_eq in Hkept).
    rewrite lookup_insert_ne in Hkept by done.
    rewrite lookup_insert_ne in Hkept by done.
    apply wp_bind, wp_bind, wp_read_dict. wsimpl.
    rewrite lookup_insert_ne, lookup_insert_eq by done.
    apply wp_store. wsimpl.
    apply wp_bind, wp_bind, wp_read_dict. wsimpl.
    rewrite lookup_insert_eq, lookup_insert_eq.
    apply wp_ret, wp_bind, wp_bind, wp_read_list. wsimpl.
    rewrite lookup_insert_ne, lookup_insert_eq by done.
    apply wp_store, wp_ret. wsimpl.
    intros ? [= <-]. eexists kept, _. rewrite lookup_insert_eq.
    rewrite lookup_insert_ne, lookup_insert_eq by done.
    by rewrite insert_insert_eq.
Qed.

(** X9: the dict of the unit is a shallow copy. When the constructor
    returns, the unit holds a dict that was not on the heap before, with
    the entries of the pipeline's dict, the values the very same objects,
    except for the Beam arguments, which are a list that was not on the
    heap before either. *)
Theorem dofn_copies_entries c tp w entries fn w' :
  heap w !! additional_pipeline_args tp = Some (PyDict entries) →
  init c tp w = (Return fn, w') →
  ∃ copied l items,
    heap w' !! _additional_pipeline_args fn = Some (PyDict copied) ∧
    heap w !! _additional_pipeline_args fn = None ∧
    copied !! beam_pipeline_args = Some l ∧
    heap w' !! l = Some (PyList items) ∧ heap w !! l = None ∧
    ∀ key, key ≠ beam_pipeline_args → copied !! key = entries !! key.
Proof.
  intros He Hr. assert (H := init_entries c tp w). unfold wp in H. rewrite Hr in H.
  destruct (H entries He) as (l & items & Hd & Hl & Hnew & Hnew').
  exists (<[beam_pipeline_args := l]> entries), l, items.
  repeat split; try done.
  - apply lookup_insert_eq.
  - intros key Hkey. by apply lookup_insert_ne.
Qed.

(** X8: [process] does not swallow a failure of the launcher. With empty
    signals, when [launch] raises, [process] raises the same exception
    after the line that the component is running, and no line that it is
    finished is logged; when [launch] returns, that line is logged and
    [process] returns. *)
Theorem process_propagates_launch_failure {A} self (element : A)
    (signals : list (list A)) w r w1 :
  Forall (λ s, s = []) signals →
  launch (_component_launcher self)
    (set_log (log w ++ [LogRunning (_component_id self)]) w) = (r, w1) →
  let called :=
    set_launched (launched w ++ [launcher_component (_component_launcher self)]) w1 in
  process launch self element signals w
  = match r with
    | Raise e => (Raise e, called)
    | Return _ =>
        (Return (), set_log (log w1 ++ [LogFinished (_component_id self)]) called)
    end.
Proof.
  intros Hs Hl. unfold process, mbind, M_bind. rewrite assert_all_empty by done.
  unfold _run_component, call_launch, info, modify, mbind, M_bind.
  wsimpl. rewrite Hl. by destruct r as [[]|e].
Qed.

End DoFnMore.

(** ** [run], further *)

Ltac wsimpl_all :=
  cbn [Py.heap Py.clock Py.run_id Py.log Py.launched Py.set_heap Py.set_clock
       Py.set_run_id Py.set_log Py.set_launched fst snd] in *.

Section RunMore.
Import PyStr JobName DateTime Py BeamDagRunner.

Variable component_id : component → string.
Variable upstream_nodes : component → list component.
Variable now : nat → datetime.
Variable timestamp : datetime → Z.

Local Abbreviation init := (ComponentAsDoFn_init component_id now timestamp).
Local Abbreviation schedule := (schedule component_id upstream_nodes now timestamp).
Local Abbreviation schedule_all := (schedule_all component_id upstream_nodes now timestamp).
Local Abbreviation deploy := (deploy component_id upstream_nodes now timestamp).
Local Abbreviation run := (run component_id upstream_nodes now timestamp).
Local Abbreviation signal_of := (signal_of component_id).
Local Abbreviation signals_of := (signals_of component_id).
Local Abbreviation topological := (topological upstream_nodes).
Local Abbreviation unit_of := (unit_of component_id upstream_nodes).
Local Abbreviation started := (started now).
Local Abbreviation derived_flag := (derived_flag component_id now timestamp).
Local Abbreviation unit_log := (unit_log component_id upstream_nodes).
Local Abbreviation orchestrator_flag := (λ (tp : pipeline) (w : world),
  job_name_flag (orchestrator_job_name (pipeline_name tp) (timestamp (now (clock w))))).

Lemma list_at_kept w w' d key items :
  kept w w' → list_at w d key = Some items → list_at w' d key = Some items.
Proof.
  intros (Hkeep & _). unfold list_at.
  destruct (heap w !! d) as [[|entries]|] eqn:He; try done.
  rewrite (Hkeep _ _ He).
  destruct (entries !! key) as [l|]; [|done].
  destruct (heap w !! l) as [[its|]|] eqn:Hl; try done.
  by rewrite (Hkeep _ _ Hl).
Qed.

Lemma list_at_allocated w d key items :
  list_at w d key = Some items → is_Some (heap w !! d).
Proof. unfold list_at. destruct (heap w !! d); [eauto | done]. Qed.

Lemma kept_fresh w w' l : kept w w' → heap w' !! l = None → heap w !! l = None.
Proof.
  intros (Hkeep & _) Hl. destruct (heap w !! l) as [o|] eqn:Ho; [|done].
  by rewrite (Hkeep _ _ Ho) in Hl.
Qed.

(** One round of the loop, in full. *)
Lemma schedule_detail tp root st c w :
  wp (schedule tp root st c)
     (λ st2 w2, ∃ fn signals,
        mapM (λ u, signal_map st !! u) (upstream_nodes c) = Some signals ∧
        st2 = {| signal_map := <[c := signal_of c]> (signal_map st);
                 transforms := transforms st ++
                   [ParDo (run_label (component_id c)) fn root signals] |} ∧
        log w2 = log w ++ [LogDependsOn (component_id c) signals;
                           LogScheduled (component_id c)] ∧
        clock w2 = S (clock w) ∧
        heap w !! _additional_pipeline_args fn = None ∧
        kept w w2 ∧
        ∀ ua, args_ok w (additional_pipeline_args tp) ua →
          list_at w2 (_additional_pipeline_args fn) beam_pipeline_args
          = Some (strip_job_names ua ++ [derived_flag tp c (clock w)]))
     (λ _ _, True) w.
Proof.
  unfold BeamDagRunner.schedule. apply wp_bind. unfold wp at 1.
  rewrite wait_for_eq.
  destruct (mapM _ (upstream_nodes c)) as [signals|] eqn:Hsig; [|done].
  rewrite app_nil_l. apply wp_bind, wp_info, wp_bind.
  eapply wp_mono; [apply init_spec| |done].
  intros fn w1 [Hu (_ & _ & Hclock & Hnone & Hlist)].
  apply wp_bind. unfold apply.
  destruct (decide (_ ∈ _)) as [Hin|Hin]; [by apply wp_raise|].
  apply wp_ret, wp_bind, wp_info, wp_ret.
  exists fn, signals. split; [done|]. split; [done|].
  destruct Hu as (Hheap & Hrun & Hlog & Hlaunched). wsimpl_all.
  split; [by rewrite Hlog, <- app_assoc|]. split; [done|]. split; [done|].
  split.
  - repeat split; [|done..]. intros l o Hl. wsimpl. rewrite Hheap; [done|].
    apply elem_of_dom; eauto.
  - intros ua Hok. wsimpl. by apply Hlist.
Qed.


(** The loop, in full, when it ends normally. *)
Lemma schedule_all_detail tp root cs : ∀ done st w st' w' ua,
  signals_of done (signal_map st) →
  args_ok w (additional_pipeline_args tp) ua →
  schedule_all tp root cs st w = (Return st', w') →
  ∃ units,
    transforms st' = transforms st ++ units ∧
    length units = length cs ∧
    log w' = log w ++ concat (unit_log <$> cs) ∧
    clock w' = (clock w + length cs)%nat ∧
    kept w w' ∧
    (∀ i c, cs !! i = Some c →
       ∃ fn, units !! i = Some (ParDo (run_label (component_id c)) fn root
                                  (signal_of <$> upstream_nodes c)) ∧
         list_at w' (_additional_pipeline_args fn) beam_pipeline_args
         = Some (strip_job_names ua ++ [derived_flag tp c (clock w + i)])) ∧
    NoDup (omap unit_args units) ∧
    Forall (λ l, heap w !! l = None) (omap unit_args units).
Proof.
  induction cs as [|c cs IH]; intros done st w st' w' ua Hsm Hok Hrun.
  - injection Hrun as <- <-. exists []. rewrite !app_nil_r.
    repeat split; try done; try lia; constructor.
  - cbn [BeamDagRunner.schedule_all] in Hrun. unfold mbind, M_bind in Hrun.
    assert (Hs := schedule_detail tp root st c w). unfold wp in Hs.
    destruct (schedule tp root st c w) as [[st1|e] w1]; [|done].
    destruct Hs as (fn & signals & Hsig & -> & Hlog & Hclock & Hnew & Hk & Hlist).
    specialize (Hlist ua Hok).
    rewrite (mapM_signals component_id done) in Hsig by done.
    destruct (decide (Forall _ _)) as [Hup|]; [|done]. injection Hsig as <-.
    apply IH with (done := done ++ [c]) (ua := ua) in Hrun
      as (units & Htr & Hlen & Hlog' & Hclock' & Hk' & Hunits & Hnd & Hfresh);
      [|by apply signals_of_insert | by eapply args_ok_kept].
    eexists (_ :: units). cbn [transforms] in Htr.
    split; [by rewrite Htr, <- app_assoc|].
    split; [by cbn; rewrite Hlen|].
    split; [by rewrite Hlog', Hlog, fmap_cons, <- app_assoc|].
    split; [cbn; lia|].
    split; [by eapply kept_trans|].
    split; [|split].
    + intros [|i] c' Hc'.
      * injection Hc' as <-. exists fn. split; [done|].
        rewrite Nat.add_0_r. by eapply list_at_kept.
      * destruct (Hunits i c' Hc') as (fn' & Hu' & Hl'). exists fn'.
        split; [done|]. rewrite Hl', Hclock. do 4 f_equal. lia.
    + cbn. constructor; [|done]. intros Hin.
      eapply Forall_forall in Hfresh; [|done].
      apply list_at_allocated in Hlist as [o Ho]. congruence.
    + cbn. constructor; [done|].
      eapply Forall_impl; [done|]. intros l Hl. by eapply kept_fresh.
Qed.

Lemma with_job_name_eq args tp w :
  with_job_name now timestamp args tp w
  = if existsb (startswith "--job_name=") args then (Return args, w)
    else (Return (args ++ [orchestrator_flag tp w]), set_clock (S (clock w)) w).
Proof. unfold with_job_name. by destruct (existsb _ _). Qed.

Lemma args_ok_heap w w' d ua : heap w' = heap w → args_ok w d ua → args_ok w' d ua.
Proof.
  intros Hh (entries & He & Hua). exists entries. rewrite Hh. split; [done|].
  destruct (entries !! beam_pipeline_args); by rewrite ?Hh.
Qed.

(** A run that deploys, in full, when it returns. *)
Lemma run_detail args environ tp w r w' ua :
  export_variable ∉ dom environ →
  args_ok w (additional_pipeline_args tp) ua →
  run args environ tp w = (Return r, w') →
  ∃ units,
    submitted r = Some {| argv := runner_args r;
                          applied := Create "CreateRoot" :: units |} ∧
    length units = length (components tp) ∧
    log w' = log w ++ concat (unit_log <$> components tp) ∧
    clock w' = (loop_tick args w + length (components tp))%nat ∧
    (∀ i c, components tp !! i = Some c →
       ∃ fn, units !! i = Some (ParDo (run_label (component_id c)) fn "CreateRoot"
                                  (signal_of <$> upstream_nodes c)) ∧
         list_at w' (_additional_pipeline_args fn) beam_pipeline_args
         = Some (strip_job_names ua ++ [derived_flag tp c (loop_tick args w + i)])) ∧
    NoDup (omap unit_args units) ∧
    Forall (λ l, heap w !! l = None) (omap unit_args units).
Proof.
  intros Hexp Hok. unfold BeamDagRunner.run, mbind, M_bind.
  rewrite with_job_name_eq.
  set (w0 := if existsb (startswith "--job_name=") args then w
             else set_clock (S (clock w)) w).
  set (args' := if existsb (startswith "--job_name=") args then args
                else args ++ [orchestrator_flag tp w]).
  assert (Hw0 : heap w0 = heap w ∧ log w0 = log w ∧
                S (clock w0) = loop_tick args w).
  { unfold w0, loop_tick. destruct (existsb _ _); wsimpl; repeat split; lia. }
  destruct Hw0 as (Hheap & Hlog0 & Htick).
  assert (Heq : (if existsb (startswith "--job_name=") args then (Return args, w)
                 else (Return (args ++ [orchestrator_flag tp w]),
                       set_clock (S (clock w)) w)) = (Return args', w0)).
  { unfold args', w0. by destruct (existsb _ _). }
  rewrite Heq, decide_False by done. rewrite deploy_eq.
  destruct (schedule_all tp "CreateRoot" (components tp) loop_start (started w0))
    as [[st|e] w1] eqn:Hrun; [|done].
  intros [= <- <-].
  apply schedule_all_detail with (done := []) (ua := ua) in Hrun
    as (units & Htr & Hlen & Hlog & Hclock & Hk & Hunits & Hnd & Hfresh);
    [|apply loop_start_signals | by apply (args_ok_heap w)].
  exists units. unfold BeamDagRunner.started in *. wsimpl_all.
  cbn [runner_args submitted].
  split; [by rewrite Htr|]. split; [done|].
  split; [by rewrite Hlog, Hlog0|]. split; [lia|].
  split; [|split; [done|]].
  - intros i c Hc. destruct (Hunits i c Hc) as (fn & Hu & Hl).
    exists fn. split; [done|]. by rewrite Hl, Htick.
  - eapply Forall_impl; [done|]. intros l Hl. by rewrite <- Hheap.
Qed.

(** X4: in the graph a run submits, the unit of each component holds a
    list of Beam arguments of its own: the user's arguments without any
    job name, then the job name derived for that component from the
    reading of the clock taken when its unit was constructed. The units
    constructed later leave it as it is. *)
Theorem run_units_job_names args environ tp w r w' ua :
  export_variable ∉ dom environ →
  args_ok w (additional_pipeline_args tp) ua →
  run args environ tp w = (Return r, w') →
  ∃ units,
    submitted r = Some {| argv := runner_args r;
                          applied := Create "CreateRoot" :: units |} ∧
    length units = length (components tp) ∧
    ∀ i c, components tp !! i = Some c →
      ∃ fn, units !! i = Some (ParDo (run_label (component_id c)) fn "CreateRoot"
                                 (signal_of <$> upstream_nodes c)) ∧
        list_at w' (_additional_pipeline_args fn) beam_pipeline_args
        = Some (strip_job_names ua ++ [derived_flag tp c (loop_tick args w + i)]).
Proof.
  intros Hexp Hok Hrun.
  destruct (run_detail args environ tp w r w' ua Hexp Hok Hrun)
    as (units & Hsub & Hlen & _ & _ & Hunits & _).
  by exists units.
Qed.




(** The loop raises the assertion error on a list in which some component
    comes before one of its upstream nodes, when nothing else can fail. *)
Lemma schedule_all_unordered tp root cs : ∀ done st w ua,
  signals_of done (signal_map st) →
  (∀ l, l ∈ full_label <$> transforms st →
        (∀ id, l ≠ run_label id) ∨ ∃ u, u ∈ done ∧ l = run_label (component_id u)) →
  NoDup (component_id <$> (done ++ cs)) →
  args_ok w (additional_pipeline_args tp) ua →
  (∃ pre c post u, cs = pre ++ c :: post ∧ u ∈ upstream_nodes c ∧ u ∉ done ++ pre) →
  ∃ w', schedule_all tp root cs st w = (Raise not_topological, w').
Proof.
  induction cs as [|c cs IH]; intros done st w ua Hsm Hlab Hnd Hok Hbad.
  { destruct Hbad as ([|??] & ? & ? & ? & ? & _); done. }
  cbn [BeamDagRunner.schedule_all]. unfold mbind, M_bind.
  assert (Hs := schedule_spec component_id upstream_nodes now timestamp tp root st c w).
  unfold wp in Hs. rewrite (mapM_signals component_id done) in Hs by done.
  destruct (decide (Forall (λ u, u ∈ done) (upstream_nodes c))) as [Hup|Hup].
  - destruct (schedule tp root st c w) as [[st1|e] w1].
    + destruct Hs as (fn & signals & _ & -> & _ & _ & Hk).
      apply (IH (done ++ [c]) _ _ ua).
      * by apply signals_of_insert.
      * cbn [transforms]. rewrite fmap_app. intros l [Hl|Hl]%elem_of_app.
        -- destruct (Hlab l Hl) as [?|(u & ? & ?)]; [by left|].
           right. exists u. split; [set_solver | done].
        -- right. exists c. split; [set_solver|]. cbn in Hl. set_solver.
      * by rewrite <- app_assoc.
      * by eapply args_ok_kept.
      * destruct Hbad as (pre & c1 & post & u & Hcs & Hu & Hnot).
        destruct pre as [|c0 pre]; injection Hcs as -> ->.
        -- exfalso. apply Hnot. rewrite app_nil_r. by eapply Forall_forall in Hup.
        -- exists pre, c1, post, u. repeat split; [done|]. by rewrite <- app_assoc.
    + exfalso. destruct Hs as (_ & [Hno|Hin]); [by apply (Hno ua)|].
      destruct (Hlab _ Hin) as [Hne|(u & Hu & Heq)]; [by apply (Hne (component_id c))|].
      apply run_label_inj in Heq.
      rewrite fmap_app, fmap_cons in Hnd. apply NoDup_app in Hnd as (_ & Hnd & _).
      apply (Hnd (component_id u)); [by apply list_elem_of_fmap_2 | rewrite <- Heq; set_solver].
  - destruct (schedule tp root st c w) as [[st1|e] w1].
    + by destruct Hs as (? & ? & ? & _).
    + destruct Hs as (_ & -> & ->). by exists w.
Qed.

(** X2: when some component of the list comes before one of its upstream
    nodes, a run that is not an export raises the assertion error of the
    loop and hands no graph to the engine, whatever the position of the
    component; the component ids are distinct and the additional pipeline
    arguments well formed, so that nothing else fails before. *)
Theorem run_rejects_unordered_components args environ tp w ua pre c post u :
  export_variable ∉ dom environ →
  NoDup (component_id <$> components tp) →
  args_ok w (additional_pipeline_args tp) ua →
  components tp = pre ++ c :: post →
  u ∈ upstream_nodes c →
  u ∉ pre →
  ∃ w', run args environ tp w = (Raise not_topological, w').
Proof.
  intros Hexp Hnd Hok Hcs Hu Hnot.
  destruct (run_eq component_id upstream_nodes now timestamp args environ tp w)
    as (args' & w1 & _ & Hh & _ & _ & _ & ->).
  rewrite decide_False by done. rewrite deploy_eq.
  destruct (schedule_all_unordered tp "CreateRoot" (components tp) [] loop_start
              (started w1) ua) as (w' & Hrun).
  - apply loop_start_signals.
  - intros l Hl. left. intros id. cbn in Hl. apply list_elem_of_singleton in Hl as ->.
    done.
  - done.
  - apply (args_ok_heap w); [|done]. unfold BeamDagRunner.started. by wsimpl.
  - by exists pre, c, post, u.
  - rewrite Hrun. by exists w'.
Qed.

Lemma run_runner_args args environ tp w r w' :
  run args environ tp w = (Return r, w') →
  runner_args r = (if existsb (startswith "--job_name=") args then args
                   else args ++ [orchestrator_flag tp w]) ∧
  ∀ p, submitted r = Some p → argv p = runner_args r.
Proof.
  unfold BeamDagRunner.run, mbind, M_bind. rewrite with_job_name_eq.
  set (args' := if existsb (startswith "--job_name=") args then args
                else args ++ [orchestrator_flag tp w]).
  set (w0 := if existsb (startswith "--job_name=") args then w
             else set_clock (S (clock w)) w).
  replace (if existsb (startswith "--job_name=") args then (Return args, w)
           else (Return (args ++ [orchestrator_flag tp w]),
                 set_clock (S (clock w)) w))
    with (Return args', w0)
    by (unfold args', w0; by destruct (existsb _ _)).
  destruct (decide (export_variable ∈ dom environ)).
  - intros [= <- _]. by split.
  - rewrite deploy_eq.
    destruct (schedule_all tp "CreateRoot" (components tp) loop_start (started w0))
      as [[st|e] w1]; [|done].
    intros [= <- _]. split; [done|]. by intros p [= <-].
Qed.

Lemma job_name_given args tp w :
  existsb (startswith "--job_name=")
    (if existsb (startswith "--job_name=") args then args
     else args ++ [orchestrator_flag tp w]) = true.
Proof.
  destruct (existsb (startswith "--job_name=") args) eqn:He; [done|].
  rewrite existsb_app. apply orb_true_iff. right. cbn [existsb].
  apply orb_true_iff. by left.
Qed.

(** X7: the arguments a runner made from [given] is left with after a
    run: those it had when one of them starts with the job name option,
    and otherwise those followed by the job name derived for the
    orchestrator; so a runner made without arguments is left with that
    job name alone. Either way an argument gives a job name, the graph
    handed to the engine carries the same arguments, and a further run
    of the runner adds nothing to them. *)
Theorem run_job_name_argument given environ tp w r w' :
  let args := BeamDagRunner_init given in
  run args environ tp w = (Return r, w') →
  runner_args r = (if existsb (startswith "--job_name=") args then args
                   else args ++ [orchestrator_flag tp w]) ∧
  (given = None → runner_args r = [orchestrator_flag tp w]) ∧
  existsb (startswith "--job_name=") (runner_args r) = true ∧
  (∀ p, submitted r = Some p → argv p = runner_args r) ∧
  (∀ environ2 w2 r2 w2',
     run (runner_args r) environ2 tp w2 = (Return r2, w2') →
     runner_args r2 = runner_args r).
Proof.
  intros args Hrun.
  destruct (run_runner_args args environ tp w r w' Hrun) as [Hargs Hargv].
  assert (Hgiven : existsb (startswith "--job_name=") (runner_args r) = true).
  { rewrite Hargs. apply job_name_given. }
  split; [done|]. split; [by intros ->|]. split; [done|]. split; [done|].
  intros environ2 w2 r2 w2' Hrun2.
  destruct (run_runner_args _ environ2 tp w2 r2 w2' Hrun2) as [Hargs2 _].
  by rewrite Hgiven in Hargs2.
Qed.

End RunMore.

(** ** The engine at work on the graph *)

Section Engine.
Import PyStr JobName DateTime Py BeamDagRunner.

Variable component_id : component → string.
Variable upstream_nodes : component → list component.
Variable now : nat → datetime.
Variable timestamp : datetime → Z.
Variable launch : launcher → M unit.

Local Abbreviation init := (ComponentAsDoFn_init component_id now timestamp).
Local Abbreviation schedule := (schedule component_id upstream_nodes now timestamp).
Local Abbreviation schedule_all := (schedule_all component_id upstream_nodes now timestamp).
Local Abbreviation run := (run component_id upstream_nodes now timestamp).
Local Abbreviation signal_of := (signal_of component_id).
Local Abbreviation signals_of := (signals_of component_id).
Local Abbreviation topological := (topological upstream_nodes).
Local Abbreviation started := (started now).
Local Abbreviation unit_log := (unit_log component_id upstream_nodes).
Local Abbreviation process := (@process launch ()).
Local Abbreviation fire := (fire launch).
Local Abbreviation executes := (executes launch).
Local Abbreviation execute_in_order := (execute_in_order launch).
Local Abbreviation completes :=
  (completes component_id upstream_nodes now timestamp launch).

(** The execution unit of [c], with what it tells the launcher and the
    log. *)
Local Abbreviation unit_for := (λ (c : component) (t : transform),
  ∃ fn, t = ParDo (signal_of c) fn "CreateRoot" (signal_of <$> upstream_nodes c) ∧
        launcher_component (_component_launcher fn) = c ∧
        _component_id fn = component_id c).

(** The launcher leaves in the log what was there. *)
Local Abbreviation appends :=
  (∀ l w, ∃ more, log (launch l w).2 = log w ++ more).

(** Every launcher returns. *)
Local Abbreviation returns :=
  (∀ l w, ∃ w', launch l w = (Return (), w')).

Lemma schedule_unit tp st c w :
  wp (schedule tp "CreateRoot" st c)
     (λ st2 w2, ∃ fn signals,
        mapM (λ u, signal_map st !! u) (upstream_nodes c) = Some signals ∧
        st2 = {| signal_map := <[c := signal_of c]> (signal_map st);
                 transforms := transforms st ++
                   [ParDo (signal_of c) fn "CreateRoot" signals] |} ∧
        launcher_component (_component_launcher fn) = c ∧
        _component_id fn = component_id c ∧
        (signal_of c ∉ full_label <$> transforms st))
     (λ _ _, True) w.
Proof.
  unfold BeamDagRunner.schedule. apply wp_bind. unfold wp at 1.
  rewrite wait_for_eq.
  destruct (mapM _ (upstream_nodes c)) as [signals|] eqn:Hsig; [|done].
  rewrite app_nil_l. apply wp_bind, wp_info, wp_bind.
  eapply wp_mono; [apply init_spec| |done].
  intros fn w1 [Hu (Hid & Hl & _)].
  apply wp_bind. unfold apply.
  destruct (decide (_ ∈ _)) as [Hin|Hin]; [by apply wp_raise|].
  apply wp_ret, wp_bind, wp_info, wp_ret.
  exists fn, signals. by rewrite Hl.
Qed.

(** The graph the loop builds: a unit for each component, under labels
    that are all different. *)
Lemma schedule_all_graph tp cs : ∀ done st w st' w',
  signals_of done (signal_map st) →
  schedule_all tp "CreateRoot" cs st w = (Return st', w') →
  ∃ units, transforms st' = transforms st ++ units ∧
    Forall2 unit_for cs units ∧
    (NoDup (full_label <$> transforms st) →
     NoDup (full_label <$> transforms st ++ units)).
Proof.
  induction cs as [|c cs IH]; intros done st w st' w' Hsm Hrun.
  - injection Hrun as <- <-. exists []. by rewrite !app_nil_r.
  - cbn [BeamDagRunner.schedule_all] in Hrun. unfold mbind, M_bind in Hrun.
    assert (Hs := schedule_unit tp st c w). unfold wp in Hs.
    destruct (schedule tp "CreateRoot" st c w) as [[st1|e] w1]; [|done].
    destruct Hs as (fn & signals & Hsig & -> & Hfn & Hid & Hnew).
    rewrite (mapM_signals component_id done) in Hsig by done.
    destruct (decide (Forall _ _)) as [Hup|]; [|done]. injection Hsig as <-.
    apply IH with (done := done ++ [c]) in Hrun as (units & Htr & Hunits & Hnd);
      [|by apply signals_of_insert].
    cbn [transforms] in Htr, Hnd. eexists (_ :: units).
    split; [by rewrite Htr, <- app_assoc|]. split.
    + constructor; [by exists fn | done].
    + intros Hnd0. rewrite cons_middle, app_assoc. apply Hnd.
      rewrite fmap_app. apply NoDup_app. split; [done|]. split.
      * intros l Hl Hin. cbn in Hin. by apply list_elem_of_singleton in Hin as ->.
      * apply NoDup_singleton.
Qed.

(** What [run] has built when it hands a graph to the engine. *)
Lemma run_graph args environ tp w r w1 p :
  run args environ tp w = (Return r, w1) →
  submitted r = Some p →
  (export_variable ∉ dom environ) ∧ launched w1 = launched w ∧
  ∃ units, applied p = Create "CreateRoot" :: units ∧
    Forall2 unit_for (components tp) units ∧
    NoDup (full_label <$> Create "CreateRoot" :: units) ∧
    topological (components tp).
Proof.
  intros Hrun Hsub.
  destruct (run_eq component_id upstream_nodes now timestamp args environ tp w)
    as (args' & w0 & _ & _ & _ & _ & Hl & Heq).
  rewrite Heq in Hrun. destruct (decide _) as [Hexp|Hexp].
  { injection Hrun as <- <-. done. }
  split; [done|]. rewrite deploy_eq in Hrun.
  destruct (schedule_all tp "CreateRoot" (components tp) loop_start (started w0))
    as [[st|e] w2] eqn:Hs; [|done].
  injection Hrun as <- <-. cbn in Hsub. injection Hsub as <-.
  destruct (schedule_all_returns component_id upstream_nodes now timestamp
              tp "CreateRoot" _ [] _ _ _ _ (loop_start_signals component_id) Hs)
    as (_ & _ & Htop & (_ & _ & Hk)).
  destruct (schedule_all_graph tp _ [] _ _ _ _ (loop_start_signals component_id) Hs)
    as (units & Htr & Hunits & Hnd).
  split; [by rewrite Hk|]. exists units. cbn [applied]. rewrite Htr.
  split; [done|]. split; [done|]. split; [|done].
  apply Hnd. cbn. apply NoDup_singleton.
Qed.

Lemma signal_not_root c : signal_of c ≠ "CreateRoot".
Proof. unfold BeamDagRunner.signal_of, run_label. intros H. discriminate H. Qed.

Lemma unit_labels cs units :
  Forall2 unit_for cs units → full_label <$> units = signal_of <$> cs.
Proof.
  induction 1 as [|c t cs' us (fn & -> & _) _ IH]; [done|]. cbn. by rewrite IH.
Qed.

Lemma unit_of_component cs units t :
  Forall2 unit_for cs units → t ∈ units → ∃ c, c ∈ cs ∧ unit_for c t.
Proof.
  intros H [i Hi]%list_elem_of_lookup.
  destruct (Forall2_lookup_r _ _ _ _ _ H Hi) as (c & Hc & Hu).
  exists c. split; [by eapply list_elem_of_lookup_2 | done].
Qed.

Lemma component_of_unit cs units c :
  Forall2 unit_for cs units → c ∈ cs → ∃ t, t ∈ units ∧ unit_for c t.
Proof.
  intros H [i Hi]%list_elem_of_lookup.
  destruct (Forall2_lookup_l _ _ _ _ _ H Hi) as (t & Ht & Hu).
  exists t. split; [by eapply list_elem_of_lookup_2 | done].
Qed.

(** A unit at work on the one element of the root, its signals empty. *)
Lemma fire_unit fn label main_input side_inputs sides w :
  Forall (λ s, s = []) sides →
  fire (ParDo label fn main_input side_inputs) [()] sides w
  = match launch (_component_launcher fn)
            (set_log (log w ++ [LogRunning (_component_id fn)]) w) with
    | (Return _, w1) =>
        (Return [],
         set_log (log w1 ++ [LogFinished (_component_id fn)])
           (set_launched
              (launched w ++ [launcher_component (_component_launcher fn)]) w1))
    | (Raise e, w1) =>
        (Raise e,
         set_launched
           (launched w ++ [launcher_component (_component_launcher fn)]) w1)
    end.
Proof.
  intros Hs. unfold BeamDagRunner.fire. cbn [for_each].
  unfold BeamDagRunner.process, mbind, M_bind.
  rewrite assert_all_empty by done. rewrite run_component_eq.
  by destruct (launch _ _) as [[[]|e] w1].
Qed.

Lemma topological_snoc ran c :
  topological ran → (∀ u, u ∈ upstream_nodes c → u ∈ ran) → topological (ran ++ [c]).
Proof.
  intros Hran Hc pre c' post Heq u Hu.
  destruct post as [|x post _] using rev_ind.
  - apply app_inj_tail in Heq as [<- <-]. by apply Hc.
  - rewrite app_comm_cons, app_assoc in Heq. apply app_inj_tail in Heq as [-> _].
    by apply (Hran pre c' post).
Qed.

Section Graph.

Variable cs : list component.
Variable units : list transform.
Variable w0 : world.
Hypothesis Hunits : Forall2 unit_for cs units.
Hypothesis Hlabels : NoDup (full_label <$> Create "CreateRoot" :: units).
Hypothesis Htop : topological cs.

Local Abbreviation graph := (Create "CreateRoot" :: units).

(** What holds while the engine is at work: the components in [ran] are
    those whose unit has run, each after its upstream nodes; the root
    holds one element and the signals none. *)
Local Abbreviation engine_inv := (λ (done : gmap pcollection (list ())) (w : world) (ran : list component),
  launched w = launched w0 ++ ran ∧ NoDup ran ∧ topological ran ∧
  (∀ c, c ∈ ran ↔ c ∈ cs ∧ signal_of c ∈ dom done) ∧
  (∀ l out, done !! l = Some out →
     (l = "CreateRoot" ∧ out = [()]) ∨ (∃ c, c ∈ cs ∧ l = signal_of c ∧ out = [])) ∧
  (appends → ∃ rest, log w = log w0 ++ rest ∧
     ∀ c, c ∈ ran → LogRunning (component_id c) ∈ rest ∧
                    LogFinished (component_id c) ∈ rest)).

Lemma signals_distinct : NoDup (signal_of <$> cs).
Proof.
  rewrite <- (unit_labels _ _ Hunits). cbn in Hlabels.
  by apply NoDup_cons in Hlabels as [_ ?].
Qed.

Lemma components_distinct : NoDup cs.
Proof. eapply NoDup_fmap_1, signals_distinct. Qed.

Lemma upstream_scheduled c u : c ∈ cs → u ∈ upstream_nodes c → u ∈ cs.
Proof.
  intros (pre & post & Heq)%list_elem_of_split Hu. rewrite Heq.
  apply elem_of_app. left. by apply (Htop pre c post).
Qed.

Lemma engine_starts : engine_inv ∅ w0 [].
Proof.
  split; [by rewrite app_nil_r|]. split; [constructor|]. split.
  { intros [|??] ? ? ?; done. }
  split; [|split].
  - intros c. split; [by intros ?%elem_of_nil|].
    intros [_ [out H]%elem_of_dom]. by rewrite lookup_empty in H.
  - intros l out Hl. by rewrite lookup_empty in Hl.
  - intros _. exists []. split; [by rewrite app_nil_r|]. set_solver.
Qed.

Lemma inputs_complete done w ran c fn main sides :
  engine_inv done w ran → c ∈ cs →
  inputs_of done (ParDo (signal_of c) fn "CreateRoot" (signal_of <$> upstream_nodes c))
  = Some (main, sides) →
  main = [()] ∧ Forall (λ s, s = []) sides ∧ ∀ u, u ∈ upstream_nodes c → u ∈ ran.
Proof.
  intros (_ & _ & _ & Hran & Hdone & _) Hc Hin. cbn [inputs_of] in Hin.
  apply bind_Some in Hin as (m & Hm & Hin).
  apply bind_Some in Hin as (ss & Hss & [= <- <-]).
  apply mapM_Some_1, Forall2_fmap_l in Hss.
  split; [|split].
  - destruct (Hdone _ _ Hm) as [[_ ->]|(c' & _ & Hne & _)]; [done|].
    symmetry in Hne. by apply signal_not_root in Hne.
  - eapply Forall2_Forall_r; [exact Hss|]. apply Forall_forall.
    intros u Hu out Hout. cbn in Hout.
    destruct (Hdone _ _ Hout) as [[Hne _]|(c' & _ & _ & ->)]; [|done].
    by apply signal_not_root in Hne.
  - intros u Hu. apply Hran. split; [by eapply upstream_scheduled|].
    apply list_elem_of_lookup in Hu as [i Hi].
    destruct (Forall2_lookup_l _ _ _ _ _ Hss Hi) as (out & _ & Hout).
    cbn in Hout. apply elem_of_dom. eauto.
Qed.

Lemma engine_after_root done w ran :
  engine_inv done w ran → engine_inv (<["CreateRoot" := [()]]> done) w ran.
Proof.
  intros (Hl & Hnd & Hord & Hran & Hdone & Hlog).
  split; [done|]. split; [done|]. split; [done|]. split; [|split; [|done]].
  - intros c. rewrite Hran, dom_insert, elem_of_union, elem_of_singleton.
    split; [tauto|]. intros [? [Hne|?]]; [|done]. by apply signal_not_root in Hne.
  - intros l out. destruct (decide (l = "CreateRoot")) as [->|Hne].
    + rewrite lookup_insert_eq. intros [= <-]. by left.
    + rewrite lookup_insert_ne by done. apply Hdone.
Qed.

Lemma engine_after_unit done w ran c w1 :
  engine_inv done w ran → c ∈ cs → signal_of c ∉ dom done →
  (∀ u, u ∈ upstream_nodes c → u ∈ ran) →
  launched w1 = launched w ++ [c] →
  (appends → ∃ more, log w1 = log w ++ [LogRunning (component_id c)] ++ more
                               ++ [LogFinished (component_id c)]) →
  engine_inv (<[signal_of c := []]> done) w1 (ran ++ [c]).
Proof.
  intros (Hl & Hnd & Hord & Hran & Hdone & Hlog) Hc Hnew Hup Hl1 Hlog1.
  assert (Hnot : c ∉ ran) by (intros Hin; apply Hran in Hin as [_ ?]; done).
  split; [by rewrite Hl1, Hl, <- app_assoc|].
  split; [apply NoDup_app; split; [done|]; split; [set_solver | apply NoDup_singleton]|].
  split; [by apply topological_snoc|]. split; [|split].
  - intros c'. rewrite elem_of_app, list_elem_of_singleton, Hran, dom_insert,
      elem_of_union, elem_of_singleton.
    split.
    + intros [[? ?]|Heq]; [tauto|]. subst c'. split; [done|]. by left.
    + intros [Hc' [Heq|?]]; [|tauto]. right.
      by apply (NoDup_fmap_eq signal_of cs c' c signals_distinct).
  - intros l out. destruct (decide (l = signal_of c)) as [->|Hne].
    + rewrite lookup_insert_eq. intros [= <-]. right. by exists c.
    + rewrite lookup_insert_ne by done. apply Hdone.
  - intros Happ. destruct (Hlog Happ) as (rest & Hrest & Hin).
    destruct (Hlog1 Happ) as (more' & Hmore).
    exists (rest ++ [LogRunning (component_id c)] ++ more'
              ++ [LogFinished (component_id c)]).
    split; [by rewrite Hmore, Hrest, <- app_assoc|].
    intros c' [Hc'|Hc']%elem_of_app.
    + destruct (Hin c' Hc'). set_solver.
    + apply list_elem_of_singleton in Hc' as ->. set_solver.
Qed.

(** Every way the engine can run the graph. *)
Lemma executes_ordered done w o w' :
  executes graph done w o w' → ∀ ran, engine_inv done w ran →
  ∃ ran', launched w' = launched w0 ++ ran' ∧ NoDup ran' ∧ topological ran' ∧
    (∀ c, c ∈ ran' → c ∈ cs) ∧
    (o = Return () →
       ran' ≡ₚ cs ∧
       (appends → ∃ rest, log w' = log w0 ++ rest ∧
          ∀ c, c ∈ cs → LogRunning (component_id c) ∈ rest ∧
                        LogFinished (component_id c) ∈ rest)) ∧
    (returns → o = Return ()).
Proof.
  induction 1 as [done w Hall
                 |done w t main sides out w1 o w' Ht Hnew Hin Hfire _ IH
                 |done w t main sides e w1 Ht Hnew Hin Hfire]; intros ran Hinv.
  - destruct Hinv as (Hl & Hnd & Hord & Hran & Hdone & Hlog).
    assert (Hsame : ∀ c, c ∈ ran ↔ c ∈ cs).
    { intros c. rewrite Hran. split; [tauto|]. intros Hc. split; [done|].
      destruct (component_of_unit _ _ c Hunits Hc) as (t & Ht & fn & -> & _).
      apply (Hall (ParDo (signal_of c) fn "CreateRoot" (signal_of <$> upstream_nodes c))).
      by apply elem_of_cons; right. }
    exists ran. split; [done|]. split; [done|]. split; [done|].
    split; [by intros c ?%Hsame|]. split; [|done].
    intros _. split.
    + apply NoDup_Permutation; [done | apply components_distinct | done].
    + intros Happ. destruct (Hlog Happ) as (rest & Hrest & Hlines).
      exists rest. split; [done|]. intros c Hc. by apply Hlines, Hsame.
  - apply elem_of_cons in Ht as [->|Ht].
    + injection Hfire as <- <-. apply (IH ran). by apply engine_after_root.
    + destruct (unit_of_component _ _ t Hunits Ht) as (c & Hc & fn & -> & Hfn & Hid).
      destruct (inputs_complete _ _ _ _ _ _ _ Hinv Hc Hin) as (-> & Hsides & Hup).
      rewrite (fire_unit _ _ _ _ _ _ Hsides) in Hfire.
      destruct (launch _ _) as [[[]|e] wl] eqn:Hlaunch; [|done].
      injection Hfire as <- <-. apply (IH (ran ++ [c])). cbn [full_label].
      apply (engine_after_unit done w ran c); try done.
      * wsimpl. by rewrite Hfn.
      * intros Happ.
        destruct (Happ (_component_launcher fn)
                    (set_log (log w ++ [LogRunning (_component_id fn)]) w))
          as (more & Hmore).
        rewrite Hlaunch in Hmore. wsimpl_all. exists more.
        by rewrite Hmore, Hid, <- !app_assoc.
  - apply elem_of_cons in Ht as [->|Ht]; [done|].
    destruct (unit_of_component _ _ t Hunits Ht) as (c & Hc & fn & -> & Hfn & Hid).
    destruct (inputs_complete _ _ _ _ _ _ _ Hinv Hc Hin) as (-> & Hsides & Hup).
    rewrite (fire_unit _ _ _ _ _ _ Hsides) in Hfire.
    destruct (launch _ _) as [[[]|e'] wl] eqn:Hlaunch; [done|].
    injection Hfire as <- <-.
    destruct Hinv as (Hl & Hnd & Hord & Hran & Hdone & Hlog).
    assert (Hnot : c ∉ ran) by (intros Hin'; apply Hran in Hin' as [_ ?]; done).
    exists (ran ++ [c]). wsimpl. split; [by rewrite Hfn, Hl, <- app_assoc|].
    split; [apply NoDup_app; split; [done|]; split;
            [set_solver | apply NoDup_singleton]|].
    split; [by apply topological_snoc|]. split; [|split; [done|]].
    + intros c' [Hc'|Hc']%elem_of_app; [by apply Hran in Hc' as [? _]|].
      by apply list_elem_of_singleton in Hc' as ->.
    + intros Hret.
      destruct (Hret (_component_launcher fn)
                  (set_log (log w ++ [LogRunning (_component_id fn)]) w)) as (w2 & Hw2).
      congruence.
Qed.

(** The engine can take the transforms in the order of the graph: the
    inputs of each are complete when its turn comes. *)
Lemma in_order_executes ts : ∀ pre done w,
  graph = pre ++ ts →
  (∀ l, l ∈ dom done ↔ l ∈ full_label <$> pre) →
  executes graph done w
    match (execute_in_order ts done w).1 with
    | Return _ => Return ()
    | Raise e => Raise e
    end
    (execute_in_order ts done w).2.
Proof.
  induction ts as [|t ts IH]; intros pre done w Hg Hdom.
  { apply executes_done. intros t Ht. rewrite Hg, app_nil_r in Ht.
    apply Hdom. by apply list_elem_of_fmap_2. }
  assert (Hin : t ∈ graph) by (rewrite Hg; set_solver).
  assert (Hnew : full_label t ∉ dom done).
  { rewrite Hdom. rewrite Hg, fmap_app, fmap_cons in Hlabels.
    apply NoDup_app in Hlabels as (_ & Hno & _). intros Hl.
    apply (Hno _ Hl). set_solver. }
  assert (Hready : is_Some (inputs_of done t)).
  { destruct pre as [|t0 pre].
    { injection Hg as <- _. by eexists. }
    injection Hg as <- Hu.
    assert (Hroot : is_Some (done !! "CreateRoot")).
    { apply elem_of_dom, Hdom. set_solver. }
    assert (Hsplit := Hunits). rewrite Hu in Hsplit.
    apply Forall2_app_inv_r in Hsplit as (csp & cst & Hpre & Hrest & Hcs).
    apply Forall2_cons_inv_r in Hrest as (c & cst' & (fn & -> & _) & _ & ->).
    assert (Hsides : is_Some (mapM (λ s, done !! s) (signal_of <$> upstream_nodes c))).
    { apply mapM_is_Some, Forall_forall. intros l (u & -> & Hup)%list_elem_of_fmap.
      cbn. apply elem_of_dom, Hdom.
      specialize (Htop csp c cst' Hcs u Hup).
      destruct (component_of_unit _ _ u Hpre Htop) as (tu & Htu & fu & -> & _).
      rewrite fmap_cons. apply elem_of_cons. right.
      by apply (list_elem_of_fmap_2' full_label _ _ _ Htu). }
    destruct Hroot as [m Hm]. destruct Hsides as [ss Hss]. exists (m, ss).
    cbn [inputs_of]. apply bind_Some. exists m. split; [exact Hm|].
    apply bind_Some. exists ss. split; [exact Hss | done]. }
  destruct Hready as [[main sides] Hready].
  cbn [BeamDagRunner.execute_in_order]. rewrite Hready. unfold mbind, M_bind.
  destruct (fire t main sides w) as [[out|e] w1] eqn:Hfire.
  - eapply executes_fire; [done..|].
    apply (IH (pre ++ [t])); [by rewrite <- app_assoc|].
    intros l. rewrite dom_insert, elem_of_union, elem_of_singleton, Hdom, fmap_app.
    set_solver.
  - cbn. by eapply executes_fail.
Qed.

End Graph.

(** *** [run] to its end *)


(** The run in which the engine takes the units in the order of the
    list. *)
Lemma in_order_completes args environ tp w r w1 p :
  run args environ tp w = (Return r, w1) →
  submitted r = Some p →
  completes args environ tp w
    match (execute_in_order (applied p) ∅ w1).1 with
    | Return _ => Return r
    | Raise e => Raise e
    end
    (execute_in_order (applied p) ∅ w1).2.
Proof.
  intros Hrun Hsub. unfold BeamDagRunner.completes. rewrite Hrun, Hsub.
  destruct (run_graph _ _ _ _ _ _ _ Hrun Hsub)
    as (_ & _ & units & Happ & Hunits & Hnd & Htop).
  exists match (execute_in_order (applied p) ∅ w1).1 with
         | Return _ => Return ()
         | Raise e => Raise e
         end.
  split; [|by destruct (execute_in_order _ _ _).1].
  rewrite Happ.
  apply (in_order_executes _ _ Hunits Hnd Htop (Create "CreateRoot" :: units) []);
    [done|].
  intros l. rewrite dom_empty. set_solver.
Qed.

(** X1: a run that is not an export ends normally when the list of
    components is in topological order, the component ids are distinct,
    the additional pipeline arguments are well formed and every launcher
    returns: there is a way for the engine to run the graph, and whatever
    order it takes the units in, [run] returns what it returned when it
    handed the graph over. *)
Theorem run_completes args environ tp w ua :
  export_variable ∉ dom environ →
  topological (components tp) →
  NoDup (component_id <$> components tp) →
  args_ok w (additional_pipeline_args tp) ua →
  returns →
  (∃ r w', completes args environ tp w (Return r) w') ∧
  (∀ o w', completes args environ tp w o w' →
     ∃ r, o = Return r ∧ (run args environ tp w).1 = Return r).
Proof.
  intros Hexp Htop Hnd Hok Hret.
  destruct (run_submits component_id upstream_nodes now timestamp args environ tp w ua
              Hexp Htop Hnd Hok) as (r & w1 & units0 & Hrun & Hsub & _).
  destruct (run_graph _ _ _ _ _ _ _ Hrun Hsub)
    as (_ & _ & units & Happ & Hunits & Hlabels & _).
  cbn [applied] in Happ. injection Happ as ->.
  assert (Hall : ∀ o1 w', executes (Create "CreateRoot" :: units) ∅ w1 o1 w' →
                          o1 = Return ()).
  { intros o1 w' Hex.
    destruct (executes_ordered _ _ w1 Hunits Hlabels Htop _ _ _ _ Hex []
                (engine_starts _ _ w1 Hunits Hlabels Htop))
      as (ran & _ & _ & _ & _ & _ & Hreturns).
    by apply Hreturns. }
  split.
  - assert (Hin := in_order_completes _ _ _ _ _ _ _ Hrun Hsub).
    cbn [applied] in Hin.
    assert (Hex : executes (Create "CreateRoot" :: units) ∅ w1
                    match (execute_in_order (Create "CreateRoot" :: units) ∅ w1).1 with
                    | Return _ => Return ()
                    | Raise e => Raise e
                    end
                    (execute_in_order (Create "CreateRoot" :: units) ∅ w1).2).
    { apply (in_order_executes _ _ Hunits Hlabels Htop
               (Create "CreateRoot" :: units) []); [done|].
      intros l. rewrite dom_empty. set_solver. }
    apply Hall in Hex.
    exists r, (execute_in_order (Create "CreateRoot" :: units) ∅ w1).2.
    by destruct (execute_in_order (Create "CreateRoot" :: units) ∅ w1).1.
  - intros o w'. unfold BeamDagRunner.completes. rewrite Hrun, Hsub.
    intros (o1 & Hex & ->). cbn [applied] in Hex.
    rewrite (Hall _ _ Hex). by exists r.
Qed.




(** X6: when a run that is not an export returns, and no launcher
    erases the log, the log holds first the two lines of each component
    written while the graph was built, in the order of the list, and
    after all of them what the units wrote: for each component the line
    that it is running and the line that it is finished. *)
Theorem scheduling_logged_before_launching args environ tp w ua r w' :
  export_variable ∉ dom environ →
  args_ok w (additional_pipeline_args tp) ua →
  appends →
  completes args environ tp w (Return r) w' →
  ∃ rest, log w' = log w ++ concat (unit_log <$> components tp) ++ rest ∧
    ∀ c, c ∈ components tp →
         LogRunning (component_id c) ∈ rest ∧ LogFinished (component_id c) ∈ rest.
Proof.
  intros Hexp Hok Happends. unfold BeamDagRunner.completes.
  destruct (run args environ tp w) as [[r0|e] w1] eqn:Hrun; [|by intros [? _]].
  destruct (run_detail component_id upstream_nodes now timestamp args environ tp w
              r0 w1 ua Hexp Hok Hrun) as (units0 & Hsub0 & _ & Hlog & _).
  rewrite Hsub0. intros (o1 & Hex & Ho).
  destruct (run_graph _ _ _ _ _ _ _ Hrun Hsub0)
    as (_ & _ & units & Happ & Hunits & Hlabels & Htop).
  rewrite Happ in Hex.
  destruct (executes_ordered _ _ w1 Hunits Hlabels Htop _ _ _ _ Hex []
              (engine_starts _ _ w1 Hunits Hlabels Htop))
    as (ran & _ & _ & _ & _ & Hall & _).
  destruct o1 as [[]|e]; [|done].
  destruct (Hall eq_refl) as (_ & Hlines).
  destruct (Hlines Happends) as (rest & Hrest & Hin).
  exists rest. split; [by rewrite Hrest, Hlog, <- app_assoc | done].
Qed.

End Engine.

(** ** The further properties on the pipelines of the tests *)

Section FurtherOnTheTests.
Import PyStr JobName DateTime Py BeamDagRunner Examples.

Ltac by_eval := refine (bool_decide_unpack _ _); vm_compute; exact I.

Local Abbreviation test_run :=
  (run test_component_id test_upstream_nodes test_now test_timestamp).
Local Abbreviation test_init :=
  (ComponentAsDoFn_init test_component_id test_now test_timestamp).
Local Abbreviation test_completes :=
  (completes test_component_id test_upstream_nodes test_now test_timestamp).

Lemma test_world_args_ok :
  args_ok test_world (additional_pipeline_args test_pipeline)
    ["--runner=PortableRunner"].
Proof. exists (<[beam_pipeline_args := 2]> ∅). split; vm_compute; reflexivity. Qed.

Lemma test_export_unset : export_variable ∉ dom (∅ : gmap string string).
Proof. by_eval. Qed.

(** The list [build] gives for the pipeline of [testRun] is in
    topological order. *)
Lemma test_pipeline_topological :
  topological test_upstream_nodes (components test_pipeline).
Proof.
  change (components test_pipeline) with [1; 3; 2; 4; 5]%nat.
  intros pre c post Heq u Hu.
  repeat (destruct pre as [|? pre];
          [ injection Heq as <- <-; vm_compute in Hu; set_solver
          | injection Heq as <- Heq ]).
  by destruct pre.
Qed.

(** [run_rejects_unordered_components] when [d] comes before [b]. *)
Lemma run_rejects_unordered_components_witness :
  ∃ w', test_run [] ∅ unordered_pipeline test_world = (Raise not_topological, w').
Proof.
  apply (run_rejects_unordered_components test_component_id test_upstream_nodes
           test_now test_timestamp [] ∅ unordered_pipeline test_world
           ["--runner=PortableRunner"] [1] 4 [3; 2; 5] 2)%nat.
  - exact test_export_unset.
  - by_eval.
  - exact test_world_args_ok.
  - reflexivity.
  - by_eval.
  - by_eval.
Defined.

(** [run_units_job_names] on the pipeline of [testRun]: the unit of [d],
    the fourth of the list. *)
Lemma run_units_job_names_witness :
  ∃ r w' units fn,
    test_run [] ∅ test_pipeline test_world = (Return r, w') ∧
    submitted r = Some {| argv := runner_args r;
                          applied := Create "CreateRoot" :: units |} ∧
    units !! 3%nat = Some (ParDo "Run[component_d]" fn "CreateRoot"
                             ["Run[component_b]"; "Run[component_c]"]) ∧
    list_at w' (_additional_pipeline_args fn) beam_pipeline_args
    = Some ["--runner=PortableRunner"; "--job_name=x-component-d-1700000000"].
Proof.
  pose (res := test_run [] ∅ test_pipeline test_world).
  pose (r := match res.1 with
             | Return r => r
             | Raise _ => {| runner_args := []; submitted := None |}
             end).
  pose (w' := res.2).
  assert (Hr : test_run [] ∅ test_pipeline test_world = (Return r, w'))
    by (vm_compute; reflexivity).
  destruct (run_units_job_names test_component_id test_upstream_nodes test_now
              test_timestamp [] ∅ test_pipeline test_world r w'
              ["--runner=PortableRunner"] test_export_unset test_world_args_ok Hr)
    as (units & Hsub & _ & Hunits).
  destruct (Hunits 3%nat 4%nat) as (fn & Hu & Hl); [vm_compute; reflexivity|].
  exists r, w', units, fn. split; [exact Hr|]. split; [exact Hsub|].
  split; [rewrite Hu; vm_compute; reflexivity|].
  rewrite Hl. vm_compute. reflexivity.
Defined.


(** [run_job_name_argument] on a runner made without arguments. *)
Lemma run_job_name_argument_witness :
  ∃ r w',
    test_run (BeamDagRunner_init None) ∅ test_pipeline test_world = (Return r, w') ∧
    runner_args r = ["--job_name=x-1700000000"] ∧
    (∀ p, submitted r = Some p → argv p = runner_args r) ∧
    ∀ environ2 w2 r2 w2',
      test_run (runner_args r) environ2 test_pipeline w2 = (Return r2, w2') →
      runner_args r2 = runner_args r.
Proof.
  pose (res := test_run (BeamDagRunner_init None) ∅ test_pipeline test_world).
  pose (r := match res.1 with
             | Return r => r
             | Raise _ => {| runner_args := []; submitted := None |}
             end).
  pose (w' := res.2).
  assert (Hr : test_run (BeamDagRunner_init None) ∅ test_pipeline test_world
               = (Return r, w')) by (vm_compute; reflexivity).
  destruct (run_job_name_argument test_component_id test_upstream_nodes test_now
              test_timestamp None ∅ test_pipeline test_world r w' Hr)
    as (_ & Hnone & _ & Hargv & Hagain).
  exists r, w'. split; [exact Hr|].
  split; [rewrite (Hnone eq_refl); vm_compute; reflexivity|].
  split; [exact Hargv | exact Hagain].
Defined.

(** [process_propagates_launch_failure] on the unit of [a], with a
    launcher that fails and with one that returns. *)
Lemma process_propagates_launch_failure_witness :
  process failing_launch test_dofn () [[]; []] test_world
  = (Raise (RuntimeError "The executor failed."),
     set_launched [1%nat] (set_log [LogRunning "component_a"] test_world)) ∧
  process test_launch test_dofn () [[]; []] test_world
  = (Return (),
     set_log [LogRunning "component_a"; LogFinished "component_a"]
       (set_launched [1%nat] test_world)).
Proof.
  assert (Hs : Forall (λ s : list (), s = []) [[]; []]) by (repeat constructor).
  split.
  - exact (process_propagates_launch_failure failing_launch test_dofn () [[]; []]
             test_world (Raise (RuntimeError "The executor failed."))
             (set_log [LogRunning "component_a"] test_world) Hs eq_refl).
  - exact (process_propagates_launch_failure test_launch test_dofn () [[]; []]
             test_world (Return ())
             (set_log [LogRunning "component_a"] test_world) Hs eq_refl).
Defined.

(** [dofn_copies_entries] on the unit of [a] in the pipeline of
    [testRun]. *)
Lemma dofn_copies_entries_witness :
  ∃ fn w' copied l items,
    test_init 1%nat test_pipeline test_world = (Return fn, w') ∧
    heap w' !! _additional_pipeline_args fn = Some (PyDict copied) ∧
    heap test_world !! _additional_pipeline_args fn = None ∧
    copied !! beam_pipeline_args = Some l ∧
    heap w' !! l = Some (PyList items) ∧ heap test_world !! l = None ∧
    ∀ key, key ≠ beam_pipeline_args →
           copied !! key = (<[beam_pipeline_args := 2%nat]> ∅ : gmap string loc) !! key.
Proof.
  pose (res := test_init 1%nat test_pipeline test_world).
  pose (fn := match res.1 with Return fn => fn | Raise _ => test_dofn end).
  pose (w' := res.2).
  assert (Hr : test_init 1%nat test_pipeline test_world = (Return fn, w'))
    by (vm_compute; reflexivity).
  assert (He : heap test_world !! additional_pipeline_args test_pipeline
               = Some (PyDict (<[beam_pipeline_args := 2%nat]> ∅)))
    by (vm_compute; reflexivity).
  destruct (dofn_copies_entries test_component_id test_now test_timestamp 1%nat
              test_pipeline test_world (<[beam_pipeline_args := 2%nat]> ∅) fn w' He Hr)
    as (copied & l & items & H).
  exists fn, w', copied, l, items. split; [exact Hr | exact H].
Defined.

(** [clean_names_job_name] on names without a character to replace. *)
Lemma clean_names_job_name_witness :
  component_job_name "my-pipeline" "trainer-v2" 1700000000
  = "my-pipeline" +:+ "-" +:+ "trainer-v2" +:+ "-" +:+ format_int 1700000000 ∧
  orchestrator_job_name "my-pipeline" 1700000000
  = "my-pipeline" +:+ "-" +:+ format_int 1700000000.
Proof.
  apply (clean_names_job_name "my-pipeline" "trainer-v2" 1700000000%Z).
  - by_eval.
  - by_eval.
Defined.

(** [job_name_timestamp_injective]: the job names of [a] at two
    timestamps written differently are equal, and so are the
    timestamps. *)
Lemma job_name_timestamp_injective_witness :
  component_job_name "x" "component_a" (1699999999 + 1)
  = component_job_name "x" "component_a" (2 * 850000000) ∧
  (1699999999 + 1 = 2 * 850000000)%Z.
Proof.
  assert (H : component_job_name "x" "component_a" (1699999999 + 1)
              = component_job_name "x" "component_a" (2 * 850000000))
    by (vm_compute; reflexivity).
  split; [exact H|].
  exact (job_name_timestamp_injective "x" "component_a" (1699999999 + 1)%Z
           (2 * 850000000)%Z H).
Defined.

(** [isoformat_injective] on the reading of the clock of the tests. *)
Lemma isoformat_injective_witness :
  valid (test_now 0) ∧ isoformat (test_now 0) = isoformat (test_now 1) ∧
  test_now 0 = test_now 1.
Proof.
  assert (Hv : ∀ n, valid (test_now n)) by (intros n; vm_compute; exact I).
  assert (He : isoformat (test_now 0) = isoformat (test_now 1)) by reflexivity.
  split; [exact (Hv 0%nat)|]. split; [exact He|].
  exact (isoformat_injective (test_now 0) (test_now 1) (Hv 0%nat) (Hv 1%nat) He).
Defined.

Lemma test_launch_returns : ∀ l w, ∃ w', test_launch l w = (Return (), w').
Proof. intros l w. by exists w. Qed.

Lemma test_launch_appends : ∀ l w, ∃ more, log (test_launch l w).2 = log w ++ more.
Proof. intros l w. exists []. by rewrite app_nil_r. Qed.

(** The run of the pipeline of [testRun] in which the engine takes the
    units in the order of the list. *)
Lemma test_run_in_order :
  ∃ r w', test_completes test_launch [] ∅ test_pipeline test_world (Return r) w' ∧
          launched w' = [1; 3; 2; 4; 5]%nat.
Proof.
  pose (res := test_run [] ∅ test_pipeline test_world).
  pose (r := match res.1 with
             | Return r => r
             | Raise _ => {| runner_args := []; submitted := None |}
             end).
  pose (w1 := res.2).
  pose (p := match submitted r with
             | Some p => p
             | None => {| argv := []; applied := [] |}
             end).
  assert (Hr : test_run [] ∅ test_pipeline test_world = (Return r, w1))
    by (vm_compute; reflexivity).
  assert (Hp : submitted r = Some p) by (vm_compute; reflexivity).
  assert (Hc := in_order_completes test_component_id test_upstream_nodes test_now
                  test_timestamp test_launch [] ∅ test_pipeline test_world r w1 p
                  Hr Hp).
  set (o := match (execute_in_order test_launch (applied p) ∅ w1).1 with
            | Return _ => Return r
            | Raise e => Raise e
            end) in Hc.
  assert (Ho : o = Return r) by (vm_compute; reflexivity).
  rewrite Ho in Hc.
  exists r, (execute_in_order test_launch (applied p) ∅ w1).2.
  split; [exact Hc|]. vm_compute. reflexivity.
Qed.

(** [run_completes] on the pipeline of [testRun], with the launcher that
    does nothing. *)
Lemma run_completes_witness :
  (∃ r w', test_completes test_launch [] ∅ test_pipeline test_world (Return r) w') ∧
  (∀ o w', test_completes test_launch [] ∅ test_pipeline test_world o w' →
     ∃ r, o = Return r ∧ (test_run [] ∅ test_pipeline test_world).1 = Return r).
Proof.
  apply (run_completes test_component_id test_upstream_nodes test_now test_timestamp
           test_launch [] ∅ test_pipeline test_world ["--runner=PortableRunner"]).
  - exact test_export_unset.
  - exact test_pipeline_topological.
  - by_eval.
  - exact test_world_args_ok.
  - exact test_launch_returns.
Defined.



(** [scheduling_logged_before_launching] on the pipeline of [testRun]. *)
Lemma scheduling_logged_before_launching_witness :
  ∃ r w' rest,
    test_completes test_launch [] ∅ test_pipeline test_world (Return r) w' ∧
    log w' = log test_world
             ++ concat (unit_log test_component_id test_upstream_nodes
                          <$> components test_pipeline)
             ++ rest ∧
    ∀ c, c ∈ components test_pipeline →
         LogRunning (test_component_id c) ∈ rest ∧
         LogFinished (test_component_id c) ∈ rest.
Proof.
  destruct test_run_in_order as (r & w' & Hc & _).
  destruct (scheduling_logged_before_launching test_component_id test_upstream_nodes
              test_now test_timestamp test_launch [] ∅ test_pipeline test_world
              ["--runner=PortableRunner"] r w' test_export_unset test_world_args_ok
              test_launch_appends Hc) as (rest & Hlog & Hlines).
  exists r, w', rest. split; [exact Hc|]. split; [exact Hlog | exact Hlines].
Defined.

End FurtherOnTheTests.
